(** * pixel.py: image "encryption" transforms

    A shallow embedding of [pixel.py] (the XOR-and-flip pixel codec, the
    Fourier codec, the Laplacian filter, the integer prompt and the
    interactive driver) together with the properties its specification
    states about them.

    Conventions.
    - A NumPy array is a tree [ndarray A]: [Item] is a sample, [Axis] one
      axis holding its sub-arrays in order.  A grayscale image has two
      axes, a multi-channel image three.
    - An 8-bit sample is a [Z] in [0,255].
    - A Python exception is a value of [exn]; a computation that may raise
      returns [result A].
    - [float64] and [complex128] values are idealised as real and complex
      numbers ([R], [R * R]): rounding of floating-point operations is not
      modelled. *)

From Stdlib Require Import ZArith List String Ascii Lia Reals Lra.
From stdpp Require Import gmap strings pretty.
Import ListNotations.

Local Open Scope Z_scope.
Set Warnings "-register-all".

(** ** Exceptions and results *)

Inductive exn : Type :=
| EOFError
| ValueError (msg : string)
| OSError (msg : string)
| IndexError (msg : string).

Inductive result (A : Type) : Type :=
| Ok (a : A)
| Raise (e : exn).
Arguments Ok {A} a.
Arguments Raise {A} e.

Definition rbind {A B} (r : result A) (k : A -> result B) : result B :=
  match r with
  | Ok a => k a
  | Raise e => Raise e
  end.

(** ** Arrays *)

Inductive ndarray (A : Type) : Type :=
| Item (a : A)
| Axis (items : list (ndarray A)).
Arguments Item {A} a.
Arguments Axis {A} items.

Section ndarray_induction.
Context {A : Type} (P : ndarray A -> Prop).
Hypothesis P_item : forall a, P (Item a).
Hypothesis P_axis : forall items, Forall P items -> P (Axis items).

Fixpoint ndarray_nested_ind (a : ndarray A) : P a :=
  match a with
  | Item x => P_item x
  | Axis items =>
      P_axis items
        ((fix go (l : list (ndarray A)) : Forall P l :=
            match l with
            | [] => @List.Forall_nil _ P
            | x :: l' => @List.Forall_cons _ P x l' (ndarray_nested_ind x) (go l')
            end) items)
  end.
End ndarray_induction.

(** Elementwise application of [f] (NumPy broadcasting of a scalar
    operation over every sample). *)
Fixpoint nd_map {A B} (f : A -> B) (a : ndarray A) : ndarray B :=
  match a with
  | Item x => Item (f x)
  | Axis items => Axis (List.map (nd_map f) items)
  end.

(** [nd_all p a]: every sample of [a] satisfies [p]. *)
Fixpoint nd_all {A} (p : A -> bool) (a : ndarray A) : bool :=
  match a with
  | Item x => p x
  | Axis items => forallb (nd_all p) items
  end.

(** [has_shape s a]: [a] is rectangular with [a.shape == s]. *)
Fixpoint has_shape {A} (s : list nat) (a : ndarray A) {struct s} : bool :=
  match s, a with
  | [], Item _ => true
  | n :: s', Axis items =>
      (length items =? n)%nat && forallb (has_shape s') items
  | _, _ => false
  end.

(** [a.ndim], read along the first sub-array of every axis.  An empty
    axis ends the descent: [Axis []] counts as one axis. *)
Fixpoint ndim {A} (a : ndarray A) : nat :=
  match a with
  | Item _ => 0
  | Axis [] => 1
  | Axis (x :: _) => S (ndim x)
  end.

Definition uint8 (v : Z) : bool := (0 <=? v) && (v <=? 255).

(** An image array as the pixel codec receives it: [dtype=uint8], at
    least the two axes height and width, rectangular. *)
Definition image_array (s : list nat) (a : ndarray Z) : bool :=
  (2 <=? length s)%nat && has_shape s a && nd_all uint8 a.

(** A grayscale image as nested lists, and its embedding as an array. *)
Abbreviation matrix A := (list (list A)) (only parsing).

Definition of_matrix {A} (m : matrix A) : ndarray A :=
  Axis (List.map (fun row => Axis (List.map Item row)) m).

(** ** Pixel-level encryption *)

(** [np.flipud(m)] is [m[::-1, ...]]: the entries of the first axis in
    reverse order.  It raises on a 0-d array. *)
Definition flipud {A} (m : ndarray A) : result (ndarray A) :=
  match m with
  | Item _ => Raise (ValueError "Input must be >= 1-d.")
  | Axis rows => Ok (Axis (rev rows))
  end.

(** [a ^ key] for a [uint8] array and a Python integer: the key is
    broadcast to every sample.  For a key in [0,255] the result is again
    [uint8] (lemma [bitwise_xor_uint8]), so no conversion takes place. *)
Definition bitwise_xor (a : ndarray Z) (key : Z) : ndarray Z :=
  nd_map (fun v => Z.lxor v key) a.

Definition encrypt_pixels (img_array : ndarray Z) (key : Z) : result (ndarray Z) :=
  rbind (flipud img_array) (fun flipped => Ok (bitwise_xor flipped key)).

Definition decrypt_pixels (img_array : ndarray Z) (key : Z) : result (ndarray Z) :=
  flipud (bitwise_xor img_array key).

(** The specification's wording of the two directions, for comparison
    with the code.  An image is its list of rows; a vertical flip sends
    row [i] of an image of height [h] to row [h - 1 - i]; the XOR mask is
    applied to every sample; encryption is the flip followed by the mask,
    decryption the mask followed by the flip. *)
Definition spec_flip_vertical {A} (rows : list A) : list A :=
  omap (fun i => rows !! (length rows - 1 - i)%nat) (seq 0 (length rows)).

Definition spec_xor_mask (key : Z) (rows : list (ndarray Z)) : list (ndarray Z) :=
  List.map (nd_map (Z.lxor key)) rows.

Definition spec_encrypt (rows : list (ndarray Z)) (key : Z) : list (ndarray Z) :=
  spec_xor_mask key (spec_flip_vertical rows).

Definition spec_decrypt (rows : list (ndarray Z)) (key : Z) : list (ndarray Z) :=
  spec_flip_vertical (spec_xor_mask key rows).

(** ** Arrays in memory

    The two pixel functions once more, at the level of NumPy objects: an
    array object is a view on a buffer, [np.flipud] returns a view on the
    buffer of its argument (basic slicing, nothing is copied or written)
    and [^] allocates the buffer of its result. *)
Module Store.

Record array_obj : Type := { base : positive; flipped : bool }.

(** The rows that an object shows: those of its buffer, in reverse order
    for a flipped view. *)
Definition view (h : gmap positive (list (ndarray Z))) (o : array_obj)
  : option (list (ndarray Z)) :=
  (fun rows => if flipped o then rev rows else rows) <$> h !! base o.

Definition np_flipud (o : array_obj) : array_obj :=
  {| base := base o; flipped := negb (flipped o) |}.

Definition np_bitwise_xor (h : gmap positive (list (ndarray Z))) (o : array_obj) (key : Z)
  : option (gmap positive (list (ndarray Z)) * array_obj) :=
  match view h o with
  | Some rows =>
      let l := fresh (dom h) in
      Some (<[l := List.map (nd_map (fun v => Z.lxor v key)) rows]> h,
            {| base := l; flipped := false |})
  | None => None
  end.

Definition encrypt_pixels (h : gmap positive (list (ndarray Z))) (img_array : array_obj) (key : Z)
  : option (gmap positive (list (ndarray Z)) * array_obj) :=
  np_bitwise_xor h (np_flipud img_array) key.

Definition decrypt_pixels (h : gmap positive (list (ndarray Z))) (img_array : array_obj) (key : Z)
  : option (gmap positive (list (ndarray Z)) * array_obj) :=
  match np_bitwise_xor h img_array key with
  | Some (h', masked) => Some (h', np_flipud masked)
  | None => None
  end.

End Store.

(** ** Laplacian (one-way filter) *)

(** Conversion of a non-negative integral [float64] to [uint8]: values in
    [0,255] are kept; above, the low eight bits remain (the conversion
    goes through a wider integer type). *)
Definition cast_uint8 (v : Z) : Z := v mod 256.

(** [cv2.borderInterpolate(p, len, BORDER_REFLECT_101)] for the
    positions a 3x3 kernel reaches, [-1 <= p <= len]. *)
Definition reflect101 (p len : Z) : Z :=
  if len =? 1 then 0
  else if p <? 0 then - p
  else if len <=? p then 2 * len - 2 - p
  else p.

Definition pixel_at (img : matrix Z) (i j : Z) : Z :=
  nth (Z.to_nat j) (nth (Z.to_nat i) img []) 0.

(** [cv2.Laplacian(img, cv2.CV_64F)] with its defaults ([ksize=1],
    [scale=1], [delta=0], [BORDER_DEFAULT]): the kernel
    [[0,1,0],[1,-4,1],[0,1,0]] over the reflected image.  On 8-bit input
    every sum is an integer of small magnitude, which [float64]
    represents exactly. *)
Definition Laplacian (img : matrix Z) : matrix Z :=
  let h := Z.of_nat (length img) in
  imap (fun i row =>
    let w := Z.of_nat (length row) in
    let y := Z.of_nat i in
    imap (fun j _ =>
      let x := Z.of_nat j in
      pixel_at img (reflect101 (y - 1) h) x
      + pixel_at img (reflect101 (y + 1) h) x
      + pixel_at img y (reflect101 (x - 1) w)
      + pixel_at img y (reflect101 (x + 1) w)
      - 4 * pixel_at img y x) row) img.

Definition apply_laplacian (img_array : matrix Z) : matrix Z :=
  let lap := Laplacian img_array in
  let abs_lap := List.map (List.map Z.abs) lap in
  List.map (List.map cast_uint8) abs_lap.

(** [rectangular h w m]: [m] has [h] rows of [w] samples each. *)
Definition rectangular {A} (h w : nat) (m : matrix A) : bool :=
  (length m =? h)%nat && forallb (fun row => (length row =? w)%nat) m.

(** A grayscale image as [cv2.imread] returns it: 8-bit samples, at least
    one row and one column. *)
Definition gray_image (h w : nat) (m : matrix Z) : bool :=
  (1 <=? h)%nat && (1 <=? w)%nat && rectangular h w m && forallb (forallb uint8) m.

(** ** Fourier transform: numbers *)

(** A [complex128] value, as its real and imaginary parts. *)
Definition C : Type := (R * R)%type.

Definition Cadd (a b : C) : C := (fst a + fst b, snd a + snd b)%R.

Definition Cmul (a b : C) : C :=
  (fst a * fst b - snd a * snd b, fst a * snd b + snd a * fst b)%R.

Definition Cscale (r : R) (a : C) : C := (r * fst a, r * snd a)%R.

Definition Cabs (a : C) : R := sqrt (fst a * fst a + snd a * snd a).

Definition Csum (l : list C) : C := fold_right Cadd (0%R, 0%R) l.

Definition of_real (x : R) : C := (x, 0%R).

(** [exp(i t)]. *)
Definition cis (t : R) : C := (cos t, sin t).

(** Conversion of a [float64] to an integer type truncates toward zero;
    to [uint8], the low eight bits of the truncated value remain. *)
Definition trunc (r : R) : Z :=
  if Rle_dec 0 r then Int_part r else (- Int_part (- r))%Z.

Definition astype_uint8 (r : R) : Z := cast_uint8 (trunc r).

(** ** Fourier transform: arrays *)

(** The two-dimensional discrete Fourier sum over a matrix of [M] rows:
    entry [(u, v)] is the sum over [(m, n)] of
    [a[m][n] * exp(sign * 2 pi i (u m / M + v n / N))]. *)
Definition dft2_sum (sign : R) (a : matrix C) : matrix C :=
  let M := INR (length a) in
  imap (fun u row =>
    let N := INR (length row) in
    imap (fun v _ =>
      Csum (imap (fun m row' =>
        Csum (imap (fun n x =>
          Cmul x (cis (sign * 2 * PI * (INR u * INR m / M + INR v * INR n / N))))
          row')) a)) row) a.

Definition zero_size {A} (a : matrix A) : bool :=
  match a with
  | [] => true
  | row :: _ => match row with [] => true | _ :: _ => false end
  end.

(** [np.fft.fft2] on an array of two axes; it raises on an axis without
    data points. *)
Definition fft2 (a : matrix C) : result (matrix C) :=
  if zero_size a then Raise (ValueError "Invalid number of FFT data points (0) specified.")
  else Ok (dft2_sum (-1) a).

(** [np.fft.ifft2] on an array of two axes: the conjugate sum, divided by
    the number of samples. *)
Definition ifft2 (a : matrix C) : result (matrix C) :=
  if zero_size a then Raise (ValueError "Invalid number of FFT data points (0) specified.")
  else
    let M := INR (length a) in
    Ok (List.map (fun row => List.map (Cscale (/ (M * INR (length row)))) row)
                 (dft2_sum 1 a)).

(** [np.fft.fftshift] along one axis of length [n]: a roll by [n // 2],
    which brings the zero-frequency term to position [n // 2]. *)
Definition roll_half {A} (l : list A) : list A :=
  let n := length l in
  drop (n - n / 2)%nat l ++ take (n - n / 2)%nat l.

(** [np.fft.fftshift] on two axes. *)
Definition fftshift {A} (a : matrix A) : matrix A :=
  roll_half (List.map roll_half a).

(** An array of exactly two axes as a matrix. *)
Definition as_vector {A} (a : ndarray A) : option (list A) :=
  match a with
  | Item _ => None
  | Axis items =>
      mapM (fun i => match i with Item x => Some x | Axis _ => None end) items
  end.

Definition as_matrix {A} (a : ndarray A) : option (matrix A) :=
  match a with
  | Item _ => None
  | Axis rows => mapM as_vector rows
  end.

Definition rmap {A B} (f : A -> B) (r : result A) : result B :=
  rbind r (fun a => Ok (f a)).

(** [np.fft.ifft2] on an array of any rank: the transform runs over the
    last two axes, for every index of the leading ones; an array with
    fewer than two axes has no such axes. *)
Fixpoint ifft2_nd (a : ndarray C) : result (ndarray C) :=
  match as_matrix a with
  | Some m =>
      if (ndim a <? 2)%nat then Raise (IndexError "tuple index out of range")
      else rmap of_matrix (ifft2 m)
  | None =>
      match a with
      | Item _ => Raise (IndexError "tuple index out of range")
      | Axis items =>
          rmap Axis
            ((fix go (l : list (ndarray C)) : result (list (ndarray C)) :=
                match l with
                | [] => Ok []
                | x :: l' =>
                    rbind (ifft2_nd x) (fun y =>
                    rbind (go l') (fun ys => Ok (y :: ys)))
                end) items)
      end
  end.

(** ** Console, files and the outside world *)

(** What a run of the program leaves behind, in order: text written to
    the console (by [print], or as the prompt of [input]) and files
    written. *)
Inductive event : Type :=
| Print (text : string)
| WriteImage (path : string) (mode : option string) (array : ndarray Z)
| WriteSpectrum (path : string) (f : matrix C).

(** The lines still to be read from standard input, and the events so
    far. *)
Record state : Type := { stdin : list string; events : list event }.

(** The library calls whose results depend on files: each is a function
    of the path. *)
Record env : Type := {
  (** [cv2.imread(path, cv2.IMREAD_GRAYSCALE)]: [None] when the file is
      missing or cannot be decoded. *)
  cv2_imread_gray : string -> result (option (matrix Z));
  (** [img = Image.open(path)], then [(np.array(img), img.mode)]. *)
  pil_open : string -> result (ndarray Z * string);
  (** [np.load(path)]; a file that does not hold a numeric array is
      counted with the failures. *)
  np_load : string -> result (ndarray C);
  (** [np.save(path, _)]: whether the file can be written. *)
  np_save : string -> result unit;
  (** [cv2.imwrite(path, _)]: its return value, or the error raised. *)
  cv2_imwrite : string -> ndarray Z -> result bool;
  (** [Image.fromarray(_, mode).save(path)]. *)
  pil_save : string -> option string -> ndarray Z -> result unit;
  (** [int(s)]: [None] stands for [ValueError], the one exception that
      [get_int_input] catches. *)
  py_int : string -> option Z
}.

(** A computation that reads input, leaves events and may raise. *)
Definition io (A : Type) : Type := state -> result A * state.

Definition ret {A} (a : A) : io A := fun st => (Ok a, st).

Definition bind {A B} (m : io A) (k : A -> io B) : io B :=
  fun st =>
    match m st with
    | (Ok a, st') => k a st'
    | (Raise e, st') => (Raise e, st')
    end.

Notation "x <- m ;; k" := (bind m (fun x => k))
  (at level 62, m at next level, right associativity, only parsing).
Notation "m ;;; k" := (bind m (fun _ => k))
  (at level 62, right associativity, only parsing).

Definition lift {A} (r : result A) : io A := fun st => (r, st).

Definition emit (e : event) : io unit :=
  fun st => (Ok tt, {| stdin := stdin st; events := events st ++ [e] |}).

Definition print (text : string) : io unit := emit (Print text).

(** [input(prompt)]: the prompt goes to the console, a line is read;
    at end of input [EOFError] is raised. *)
Definition input (prompt : string) : io string :=
  fun st =>
    let ev := events st ++ [Print prompt] in
    match stdin st with
    | [] => (Raise EOFError, {| stdin := []; events := ev |})
    | line :: rest => (Ok line, {| stdin := rest; events := ev |})
    end.

(** [str(e)]. *)
Definition exn_text (e : exn) : string :=
  match e with
  | EOFError => ""
  | ValueError msg | OSError msg | IndexError msg => msg
  end.

(** ** Strings *)

(** The ASCII characters that [str.strip] removes. *)
Definition is_space (c : ascii) : bool :=
  let n := nat_of_ascii c in
  ((9 <=? n) && (n <=? 13) || (28 <=? n) && (n <=? 32))%nat.

Fixpoint lstrip (s : string) : string :=
  match s with
  | EmptyString => EmptyString
  | String c s' => if is_space c then lstrip s' else s
  end.

Definition strip (s : string) : string :=
  String.rev (lstrip (String.rev (lstrip s))).

Definition lower_ascii (c : ascii) : ascii :=
  let n := nat_of_ascii c in
  if ((65 <=? n) && (n <=? 90))%nat then ascii_of_nat (n + 32) else c.

Fixpoint lower (s : string) : string :=
  match s with
  | EmptyString => EmptyString
  | String c s' => String (lower_ascii c) (lower s')
  end.

Definition ends_with (suffix s : string) : bool :=
  let n := String.length s in
  let m := String.length suffix in
  (m <=? n)%nat && String.eqb (substring (n - m) m s) suffix.

(** [str(v)] for an integer. *)
Definition str_of_int (v : Z) : string :=
  pretty v.

Definition newline : string := String (ascii_of_nat 10) EmptyString.

(** ** Image handling *)

Section program.
Variable E : env.

(** The array type that [load_image] yields depends on the flag: two
    axes with [as_gray], the rank of the decoded image otherwise. *)
Definition loaded (as_gray : bool) : Type :=
  if as_gray then matrix Z else ndarray Z.

Definition load_image (path : string) (as_gray : bool)
  : io (option (loaded as_gray) * option string) :=
  match as_gray return io (option (loaded as_gray) * option string) with
  | true =>
      match cv2_imread_gray E path with
      | Ok img => ret (img, Some "L")
      | Raise e =>
          print ("❌ Error loading image: " ++ exn_text e) ;;;
          ret (None, None)
      end
  | false =>
      match pil_open E path with
      | Ok (array, mode) => ret (Some array, Some mode)
      | Raise e =>
          print ("❌ Error loading image: " ++ exn_text e) ;;;
          ret (None, None)
      end
  end.

(** A successful write is recorded as a [WriteImage] event; when
    [cv2.imwrite] returns [False] nothing was written, and the message is
    printed all the same. *)
Definition save_image (array : ndarray Z) (mode : option string) (path : string)
  : io unit :=
  let attempt : io unit :=
    match mode with
    | Some "L" =>
        written <- lift (cv2_imwrite E path array) ;;
        if written then emit (WriteImage path mode array) else ret tt
    | _ =>
        let bytes := nd_map cast_uint8 array in
        lift (pil_save E path mode bytes) ;;;
        emit (WriteImage path mode bytes)
    end in
  fun st =>
    match attempt st with
    | (Ok _, st') => print ("✅ Image saved as: " ++ path) st'
    | (Raise e, st') => print ("❌ Error saving image: " ++ exn_text e) st'
    end.

(** ** Fourier transform encryption *)

(** [np.save] appends [.npy] to a name that lacks it. *)
Definition npy_name (path : string) : string :=
  if ends_with ".npy" path then path else path ++ ".npy".

Definition encrypt_fourier (img_array : matrix Z) (spectrum_file : string)
  : io (matrix Z) :=
  f <- lift (fft2 (List.map (List.map (fun v => of_real (IZR v))) img_array)) ;;
  lift (np_save E spectrum_file) ;;;
  emit (WriteSpectrum (npy_name spectrum_file) f) ;;;
  let magnitude :=
    List.map (List.map (fun c => (20 * ln (Cabs c + 1))%R)) (fftshift f) in
  ret (List.map (List.map astype_uint8) magnitude).

Definition decrypt_fourier (spectrum_file : string) : io (option (ndarray Z)) :=
  match rbind (np_load E spectrum_file) ifft2_nd with
  | Ok img_back =>
      let img_back := nd_map Cabs img_back in
      ret (Some (nd_map astype_uint8 img_back))
  | Raise e =>
      print ("❌ Error decrypting Fourier data: " ++ exn_text e) ;;;
      ret None
  end.

(** ** Input validation *)

(** The [while True] loop reads one line per iteration: the recursion is
    on the lines left.  [ev] are the events so far. *)
Fixpoint get_int_input_loop (prompt : string) (min_val max_val : Z)
  (lines : list string) (ev : list event) : result Z * state :=
  match lines with
  | [] => (Raise EOFError, {| stdin := []; events := ev ++ [Print prompt] |})
  | line :: rest =>
      let ev := ev ++ [Print prompt] in
      match py_int E line with
      | Some val =>
          if (min_val <=? val) && (val <=? max_val)
          then (Ok val, {| stdin := rest; events := ev |})
          else
            get_int_input_loop prompt min_val max_val rest
              (ev ++ [Print ("Please enter a number between " ++ str_of_int min_val
                             ++ " and " ++ str_of_int max_val ++ ".")])
      | None =>
          get_int_input_loop prompt min_val max_val rest
            (ev ++ [Print "Invalid input. Enter a valid integer."])
      end
  end.

Definition get_int_input (prompt : string) (min_val max_val : Z) : io Z :=
  fun st => get_int_input_loop prompt min_val max_val (stdin st) (events st).

(** ** Main interface *)

Definition main : io unit :=
  print (newline ++ "=== 🔐 Image Encryption Tool ===") ;;;
  print "1. Pixel-based Encryption/Decryption" ;;;
  print "2. Fourier Transform Encryption/Decryption" ;;;
  print "3. Laplacian Transform (edge detection only)" ;;;
  choice <- input "Choose method (1/2/3): " ;;
  let choice := strip choice in
  if String.eqb choice "1" then
    operation <- input "Encrypt (e) or Decrypt (d)? " ;;
    let operation := lower (strip operation) in
    path <- input "Enter image path: " ;;
    let path := strip path in
    key <- get_int_input "Enter encryption key (0-255): " 0 255 ;;
    output <- input "Output image filename: " ;;
    let output := strip output in
    loaded_image <- load_image path false ;;
    match loaded_image with
    | (None, _) => ret tt
    | (Some img_array, mode) =>
        result <- lift (if String.eqb operation "e"
                        then encrypt_pixels img_array key
                        else decrypt_pixels img_array key) ;;
        save_image result mode output
    end
  else if String.eqb choice "2" then
    operation <- input "Encrypt (e) or Decrypt (d)? " ;;
    let operation := lower (strip operation) in
    if String.eqb operation "e" then
      path <- input "Enter grayscale image path: " ;;
      let path := strip path in
      spectrum_file <- input "Enter path to save spectrum data (e.g., spectrum.npy): " ;;
      let spectrum_file := strip spectrum_file in
      output <- input "Output (magnitude image) filename: " ;;
      let output := strip output in
      loaded_image <- load_image path true ;;
      match loaded_image with
      | (None, _) => ret tt
      | (Some img_array, mode) =>
          result <- encrypt_fourier img_array spectrum_file ;;
          save_image (of_matrix result) (Some "L") output
      end
    else if String.eqb operation "d" then
      spectrum_file <- input "Enter .npy spectrum file path: " ;;
      let spectrum_file := strip spectrum_file in
      output <- input "Output decrypted image filename: " ;;
      let output := strip output in
      result <- decrypt_fourier spectrum_file ;;
      match result with
      | Some result => save_image result (Some "L") output
      | None => ret tt
      end
    else
      print "❌ Invalid operation. Use 'e' or 'd'."
  else if String.eqb choice "3" then
    path <- input "Enter image path: " ;;
    let path := strip path in
    output <- input "Output image filename: " ;;
    let output := strip output in
    loaded_image <- load_image path true ;;
    match loaded_image with
    | (None, _) => ret tt
    | (Some img_array, mode) =>
        let lap := apply_laplacian img_array in
        save_image (of_matrix lap) (Some "L") output
    end
  else
    print "❌ Invalid choice. Please enter 1, 2, or 3.".

End program.

(** ** Vocabulary of the properties *)

(** An entry that [get_int_input] turns down: not an integer, or an
    integer outside [[min_val, max_val]]. *)
Definition rejected_entry (E : env) (min_val max_val : Z) (line : string) : bool :=
  match py_int E line with
  | Some val => negb ((min_val <=? val) && (val <=? max_val))
  | None => true
  end.

Definition is_write (e : event) : bool :=
  match e with
  | Print _ => false
  | WriteImage _ _ _ | WriteSpectrum _ _ => true
  end.

(** The files written during a run, in order. *)
Definition writes (st : state) : list event := List.filter is_write (events st).

(** Entry [(i, j)] of a matrix. *)
Definition entry {A} (m : matrix A) (i j : nat) : option A :=
  match m !! i with
  | Some row => row !! j
  | None => None
  end.

(** The magnitude formula in the specification's words, for comparison
    with the code: [20 * log10(magnitude + 1)], saturated to [0,255] and
    converted to an 8-bit integer. *)
Definition spec_log10 (x : R) : R := (ln x / ln 10)%R.

Definition spec_clip_uint8 (r : R) : Z := Z.min 255 (Z.max 0 (trunc r)).

Definition spec_magnitude (c : C) : Z :=
  spec_clip_uint8 (20 * spec_log10 (Cabs c + 1))%R.

(** ** Sample worlds *)

(** [int(s)] on ASCII text: surrounding whitespace, an optional sign,
    decimal digits, single underscores between digits. *)
Fixpoint digits_value (s : string) (acc : Z) (after_digit : bool) : option Z :=
  match s with
  | EmptyString => if after_digit then Some acc else None
  | String c s' =>
      let n := nat_of_ascii c in
      if ((48 <=? n) && (n <=? 57))%nat
      then digits_value s' (10 * acc + Z.of_nat (n - 48)) true
      else if Ascii.eqb c "_" && after_digit then digits_value s' acc false
      else None
  end.

Definition int_of_string (s : string) : option Z :=
  match strip s with
  | String "-" s' => Z.opp <$> digits_value s' 0 false
  | String "+" s' => digits_value s' 0 false
  | s' => digits_value s' 0 false
  end.

(** A world without readable files, in which every write succeeds. *)
Definition empty_world : env := {|
  cv2_imread_gray := fun _ => Ok None;
  pil_open := fun _ => Raise (OSError "No such file or directory");
  np_load := fun _ => Raise (OSError "No such file or directory");
  np_save := fun _ => Ok tt;
  cv2_imwrite := fun _ _ => Ok true;
  pil_save := fun _ _ _ => Ok tt;
  py_int := int_of_string
|}.

(** The same world with one spectrum file of shape [(1, 1, 1)]. *)
Definition three_axes_world : env := {|
  cv2_imread_gray := fun _ => Ok None;
  pil_open := fun _ => Raise (OSError "No such file or directory");
  np_load := fun path =>
    if String.eqb path "cube.npy"
    then Ok (Axis [Axis [Axis [Item (4%R, 0%R)]]])
    else Raise (OSError "No such file or directory");
  np_save := fun _ => Ok tt;
  cv2_imwrite := fun _ _ => Ok true;
  pil_save := fun _ _ _ => Ok tt;
  py_int := int_of_string
|}.

(** [framed m]: the computation [m] reads the events so far not at all
    and only appends to them, so a run from any state is the run from
    the same input with an empty console, after the given events. *)
Definition framed {A} (m : io A) : Prop :=
  forall (lines : list string) (ev : list event),
    m {| stdin := lines; events := ev |}
    = (fst (m {| stdin := lines; events := [] |}),
       {| stdin := stdin (snd (m {| stdin := lines; events := [] |}));
          events := ev ++ events (snd (m {| stdin := lines; events := [] |})) |}).

(** A world whose spectrum files all hold one row of two coefficients. *)
Definition one_row_world : env := {|
  cv2_imread_gray := fun _ => Ok None;
  pil_open := fun _ => Raise (OSError "No such file or directory");
  np_load := fun _ => Ok (of_matrix [[(4%R, 0%R); (0%R, 0%R)]]);
  np_save := fun _ => Ok tt;
  cv2_imwrite := fun _ _ => Ok true;
  pil_save := fun _ _ _ => Ok tt;
  py_int := int_of_string
|}.

(** A world in which every image file holds the same RGB image of one
    pixel and every write succeeds. *)
Definition readable_world : env := {|
  cv2_imread_gray := fun _ => Ok None;
  pil_open := fun _ => Ok (Axis [Axis [Axis [Item 10; Item 20; Item 30]]], "RGB");
  np_load := fun _ => Raise (OSError "No such file or directory");
  np_save := fun _ => Ok tt;
  cv2_imwrite := fun _ _ => Ok true;
  pil_save := fun _ _ _ => Ok tt;
  py_int := int_of_string
|}.

(** The line that [get_int_input] prints after an entry it turns down. *)
Definition rejection_notice (E : env) (min_val max_val : Z) (line : string) : string :=
  match py_int E line with
  | Some _ =>
      "Please enter a number between " ++ str_of_int min_val
      ++ " and " ++ str_of_int max_val ++ "."
  | None => "Invalid input. Enter a valid integer."
  end.

(** A world in which every image file is the grayscale image
    [[1, 2], [3, 4]] and every write succeeds. *)
Definition gray_world : env := {|
  cv2_imread_gray := fun _ => Ok (Some [[1; 2]; [3; 4]]);
  pil_open := fun _ => Raise (OSError "cannot identify image file");
  np_load := fun _ => Raise (OSError "No such file or directory");
  np_save := fun _ => Ok tt;
  cv2_imwrite := fun _ _ => Ok true;
  pil_save := fun _ _ _ => Ok tt;
  py_int := int_of_string
|}.

(** The same images in a place where nothing can be written. *)
Definition read_only_world : env := {|
  cv2_imread_gray := fun _ => Ok (Some [[1; 2]; [3; 4]]);
  pil_open := fun _ => Raise (OSError "cannot identify image file");
  np_load := fun _ => Raise (OSError "No such file or directory");
  np_save := fun _ => Raise (OSError "Permission denied");
  cv2_imwrite := fun _ _ => Ok false;
  pil_save := fun _ _ _ => Raise (OSError "Permission denied");
  py_int := int_of_string
|}.

(** The sum of all samples of a grayscale image. *)
Definition sum_samples (m : matrix Z) : Z :=
  fold_right Z.add 0 (List.map (fold_right Z.add 0) m).




(** * Properties *)

(** ** Pixel codec *)

Lemma lxor_key_involutive (key v : Z) : Z.lxor (Z.lxor v key) key = v.
Proof. by rewrite Z.lxor_assoc, Z.lxor_nilpotent, Z.lxor_0_r. Qed.

Lemma nd_map_id_on {A} (f : A -> A) (a : ndarray A) :
  (forall x, f x = x) -> nd_map f a = a.
Proof.
  intros Hf. induction a as [x | items IH] using ndarray_nested_ind; simpl.
  - by rewrite Hf.
  - f_equal. induction IH as [| y l Hy _ IHl]; simpl; [done |].
    by rewrite Hy, IHl.
Qed.

Lemma nd_map_compose {A B C} (f : A -> B) (g : B -> C) (a : ndarray A) :
  nd_map g (nd_map f a) = nd_map (fun x => g (f x)) a.
Proof.
  induction a as [x | items IH] using ndarray_nested_ind; simpl; [done |].
  f_equal. rewrite List.map_map.
  induction IH as [| y l Hy _ IHl]; simpl; [done |].
  by rewrite Hy, IHl.
Qed.

Lemma nd_map_ext {A B} (f g : A -> B) (a : ndarray A) :
  (forall x, f x = g x) -> nd_map f a = nd_map g a.
Proof.
  intros Hfg. induction a as [x | items IH] using ndarray_nested_ind; simpl.
  - by rewrite Hfg.
  - f_equal. induction IH as [| y l Hy _ IHl]; simpl; [done |].
    by rewrite Hy, IHl.
Qed.

Lemma bitwise_xor_involutive (a : ndarray Z) (key : Z) :
  bitwise_xor (bitwise_xor a key) key = a.
Proof.
  unfold bitwise_xor. rewrite nd_map_compose.
  apply nd_map_id_on. intros v. apply lxor_key_involutive.
Qed.

(** XOR of two 8-bit values is an 8-bit value: the mask never leaves the
    sample type. *)
Lemma lxor_uint8 (v key : Z) :
  uint8 v = true -> uint8 key = true -> uint8 (Z.lxor v key) = true.
Proof.
  unfold uint8. intros Hv Hk.
  apply andb_true_iff in Hv as [Hv0 Hv1]. apply andb_true_iff in Hk as [Hk0 Hk1].
  apply Z.leb_le in Hv0, Hv1, Hk0, Hk1.
  assert (Hnn : 0 <= Z.lxor v key) by (apply Z.lxor_nonneg; lia).
  assert (Hlt : Z.lxor v key < 2 ^ 8).
  { destruct (Z.eq_dec (Z.lxor v key) 0) as [-> | Hne]; [lia |].
    apply Z.log2_lt_pow2; [lia |].
    eapply Z.le_lt_trans; [apply Z.log2_lxor; lia |].
    apply Z.max_lub_lt.
    - destruct (Z.eq_dec v 0) as [-> | ?]; [simpl; lia |].
      apply Z.log2_lt_pow2; lia.
    - destruct (Z.eq_dec key 0) as [-> | ?]; [simpl; lia |].
      apply Z.log2_lt_pow2; lia. }
  apply andb_true_iff. split; apply Z.leb_le; lia.
Qed.

Lemma nd_all_map {A B} (p : A -> bool) (q : B -> bool) (f : A -> B) (a : ndarray A) :
  (forall x, p x = true -> q (f x) = true) ->
  nd_all p a = true -> nd_all q (nd_map f a) = true.
Proof.
  intros Hpq. induction a as [x | items IH] using ndarray_nested_ind; simpl.
  - apply Hpq.
  - induction IH as [| y l Hy _ IHl]; simpl; [done |].
    intros [H1 H2]%andb_true_iff. apply andb_true_iff. auto.
Qed.

Lemma bitwise_xor_uint8 (a : ndarray Z) (key : Z) :
  uint8 key = true -> nd_all uint8 a = true ->
  nd_all uint8 (bitwise_xor a key) = true.
Proof.
  intros Hk. apply nd_all_map. intros v Hv. by apply lxor_uint8.
Qed.

Lemma has_shape_map {A B} (f : A -> B) (s : list nat) (a : ndarray A) :
  has_shape s (nd_map f a) = has_shape s a.
Proof.
  revert a. induction s as [| n s IH]; intros [x | items]; simpl; try done.
  rewrite length_map. f_equal.
  induction items as [| y l IHl]; simpl; [done |]. by rewrite IH, IHl.
Qed.

Lemma forallb_rev {A} (p : A -> bool) (l : list A) :
  forallb p (rev l) = forallb p l.
Proof.
  induction l as [| x l IH]; simpl; [done |].
  rewrite forallb_app, IH. simpl. rewrite andb_true_r. apply andb_comm.
Qed.

Lemma has_shape_flip {A} (s : list nat) (rows : list (ndarray A)) :
  has_shape s (Axis (rev rows)) = has_shape s (Axis rows).
Proof.
  destruct s as [| n s]; simpl; [done |].
  by rewrite length_rev, forallb_rev.
Qed.

Lemma image_array_axis (s : list nat) (a : ndarray Z) :
  image_array s a = true -> exists rows, a = Axis rows.
Proof.
  unfold image_array. intros [[Hs Hsh]%andb_true_iff _]%andb_true_iff.
  destruct s as [| n s]; [done |]. destruct a as [x | rows]; [done |]. eauto.
Qed.

Lemma uint8_range (k : Z) : 0 <= k <= 255 -> uint8 k = true.
Proof. intros ?. unfold uint8. apply andb_true_iff. split; apply Z.leb_le; lia. Qed.

Lemma encrypt_pixels_image (s : list nat) (x : ndarray Z) (k : Z) :
  image_array s x = true -> 0 <= k <= 255 ->
  exists y, encrypt_pixels x k = Ok y /\ image_array s y = true.
Proof.
  intros Hx Hk. destruct (image_array_axis _ _ Hx) as [rows ->].
  eexists. split; [reflexivity |].
  unfold image_array in *.
  apply andb_true_iff in Hx as [[Hs Hsh]%andb_true_iff Hu].
  rewrite Hs. unfold bitwise_xor at 1. rewrite has_shape_map, has_shape_flip, Hsh.
  rewrite !andb_true_l. apply bitwise_xor_uint8; [by apply uint8_range |].
  simpl in *. by rewrite forallb_rev.
Qed.

(** C1. For every image array [x] (any shape with at least two axes, any
    8-bit samples) and every key [k] in [0,255], encryption succeeds, its
    result is again an 8-bit image of the same shape, and decrypting that
    result with the same key returns exactly [x]. *)
Theorem pixel_round_trip (s : list nat) (x : ndarray Z) (k : Z) :
  image_array s x = true -> 0 <= k <= 255 ->
  exists y, encrypt_pixels x k = Ok y /\ image_array s y = true /\
            decrypt_pixels y k = Ok x.
Proof.
  intros Hx Hk. destruct (encrypt_pixels_image s x k Hx Hk) as (y & Hy & Himg).
  exists y. repeat split; [done | done |].
  destruct (image_array_axis _ _ Hx) as [rows ->].
  simpl in Hy. injection Hy as <-.
  unfold decrypt_pixels. rewrite bitwise_xor_involutive. simpl.
  by rewrite rev_involutive.
Qed.

Lemma pixel_round_trip_witness :
  exists y, encrypt_pixels (of_matrix [[10; 20]; [30; 40]]) 5 = Ok y /\
            image_array [2%nat; 2%nat] y = true /\
            decrypt_pixels y 5 = Ok (of_matrix [[10; 20]; [30; 40]]).
Proof.
  apply (pixel_round_trip [2%nat; 2%nat] (of_matrix [[10; 20]; [30; 40]]) 5).
  - reflexivity.
  - lia.
Defined.

(** The index-wise vertical flip of the specification is list reversal. *)
Lemma spec_flip_prefix {A} (rows : list A) (n : nat) :
  (n <= length rows)%nat ->
  omap (fun i => rows !! (length rows - 1 - i)%nat) (seq 0 n)
  = rev (drop (length rows - n) rows).
Proof.
  induction n as [| n IH]; intros Hn.
  - simpl. rewrite Nat.sub_0_r, drop_all. done.
  - rewrite seq_S, omap_app, IH by lia. simpl.
    destruct (lookup_lt_is_Some_2 rows (length rows - 1 - n)) as [x Hx]; [lia |].
    rewrite Hx. simpl.
    replace (length rows - n)%nat with (S (length rows - 1 - n)) by lia.
    replace (length rows - S n)%nat with (length rows - 1 - n)%nat by lia.
    by rewrite (drop_S _ _ _ Hx).
Qed.

Lemma spec_flip_vertical_rev {A} (rows : list A) :
  spec_flip_vertical rows = rev rows.
Proof.
  unfold spec_flip_vertical. rewrite spec_flip_prefix by lia.
  by rewrite Nat.sub_diag, drop_0.
Qed.

Lemma bitwise_xor_axis (rows : list (ndarray Z)) (key : Z) :
  bitwise_xor (Axis rows) key = Axis (spec_xor_mask key rows).
Proof.
  unfold bitwise_xor, spec_xor_mask. simpl. f_equal.
  apply map_ext. intros a. apply nd_map_ext. intros v. apply Z.lxor_comm.
Qed.

(** C2. For every image array [x] and key [k] in [0,255], [encrypt_pixels]
    returns the vertical flip of [x] masked with [k] and [decrypt_pixels]
    returns the vertical flip of the masked [x], flip and mask being those
    of the specification; the image [[10,20],[30,40]] with key 5 encrypts
    to [[27,45],[15,17]], which decrypts back to [[10,20],[30,40]]. *)
Theorem pixel_codec_contract (s : list nat) (x : ndarray Z) (k : Z) :
  image_array s x = true -> 0 <= k <= 255 ->
  (exists rows, x = Axis rows /\
     encrypt_pixels x k = Ok (Axis (spec_encrypt rows k)) /\
     decrypt_pixels x k = Ok (Axis (spec_decrypt rows k))) /\
  encrypt_pixels (of_matrix [[10; 20]; [30; 40]]) 5
    = Ok (of_matrix [[27; 45]; [15; 17]]) /\
  decrypt_pixels (of_matrix [[27; 45]; [15; 17]]) 5
    = Ok (of_matrix [[10; 20]; [30; 40]]).
Proof.
  intros Hx _. split; [| split; reflexivity].
  destruct (image_array_axis _ _ Hx) as [rows ->]. exists rows.
  split; [done |]. unfold encrypt_pixels, decrypt_pixels, spec_encrypt, spec_decrypt.
  split.
  - simpl flipud. unfold rbind. by rewrite bitwise_xor_axis, spec_flip_vertical_rev.
  - by rewrite bitwise_xor_axis, spec_flip_vertical_rev.
Qed.

Lemma pixel_codec_contract_witness :
  (exists rows, of_matrix [[1; 2; 3]; [4; 5; 6]] = Axis rows /\
     encrypt_pixels (of_matrix [[1; 2; 3]; [4; 5; 6]]) 255
       = Ok (Axis (spec_encrypt rows 255)) /\
     decrypt_pixels (of_matrix [[1; 2; 3]; [4; 5; 6]]) 255
       = Ok (Axis (spec_decrypt rows 255))) /\
  encrypt_pixels (of_matrix [[10; 20]; [30; 40]]) 5
    = Ok (of_matrix [[27; 45]; [15; 17]]) /\
  decrypt_pixels (of_matrix [[27; 45]; [15; 17]]) 5
    = Ok (of_matrix [[10; 20]; [30; 40]]).
Proof.
  apply (pixel_codec_contract [2%nat; 3%nat] (of_matrix [[1; 2; 3]; [4; 5; 6]]) 255).
  - reflexivity.
  - lia.
Defined.

(** The mask and the flip commute: both directions compute the same
    function. *)
Lemma flip_xor_commute (x : ndarray Z) (k : Z) :
  rbind (flipud x) (fun flipped => Ok (bitwise_xor flipped k))
  = flipud (bitwise_xor x k).
Proof.
  destruct x as [v | rows]; simpl; [done |].
  unfold bitwise_xor. simpl. by rewrite map_rev.
Qed.

(** C3, as stated, fails: no image and key separate flip-then-mask from
    mask-then-flip. *)
Lemma ordering_reversal_not_required :
  ~ (exists (s : list nat) (x : ndarray Z) (k : Z),
       image_array s x = true /\ 0 <= k <= 255 /\
       rbind (flipud x) (fun flipped => Ok (bitwise_xor flipped k))
       <> flipud (bitwise_xor x k)).
Proof.
  intros (s & x & k & _ & _ & Hne). apply Hne, flip_xor_commute.
Qed.

(** C3, amended. Flip-then-mask and mask-then-flip agree on every array
    and key, so [encrypt_pixels] and [decrypt_pixels] are the same
    function, and for an image and a key in [0,255] applying either of
    them twice (the same composition order on both sides) returns the
    image. *)
Theorem pixel_codec_order_irrelevant (s : list nat) (x : ndarray Z) (k : Z) :
  image_array s x = true -> 0 <= k <= 255 ->
  encrypt_pixels x k = decrypt_pixels x k /\
  rbind (encrypt_pixels x k) (fun y => encrypt_pixels y k) = Ok x /\
  rbind (decrypt_pixels x k) (fun y => decrypt_pixels y k) = Ok x.
Proof.
  intros Hx Hk.
  assert (Heq : forall a, encrypt_pixels a k = decrypt_pixels a k).
  { intros a. apply flip_xor_commute. }
  split; [apply Heq |].
  destruct (image_array_axis _ _ Hx) as [rows ->].
  assert (Hrt : rbind (encrypt_pixels (Axis rows) k) (fun y => decrypt_pixels y k)
                = Ok (Axis rows)).
  { simpl. unfold decrypt_pixels. rewrite bitwise_xor_involutive. simpl.
    by rewrite rev_involutive. }
  split.
  - etransitivity; [| exact Hrt].
    destruct (encrypt_pixels (Axis rows) k); simpl; [apply Heq | done].
  - rewrite <- (Heq (Axis rows)). exact Hrt.
Qed.

Lemma pixel_codec_order_irrelevant_witness :
  encrypt_pixels (of_matrix [[10; 20]; [30; 40]]) 5
  = decrypt_pixels (of_matrix [[10; 20]; [30; 40]]) 5 /\
  rbind (encrypt_pixels (of_matrix [[10; 20]; [30; 40]]) 5)
        (fun y => encrypt_pixels y 5) = Ok (of_matrix [[10; 20]; [30; 40]]) /\
  rbind (decrypt_pixels (of_matrix [[10; 20]; [30; 40]]) 5)
        (fun y => decrypt_pixels y 5) = Ok (of_matrix [[10; 20]; [30; 40]]).
Proof.
  apply (pixel_codec_order_irrelevant [2%nat; 2%nat] (of_matrix [[10; 20]; [30; 40]]) 5).
  - reflexivity.
  - lia.
Defined.

(** ** Pixel codec: memory *)

Lemma np_bitwise_xor_fresh (h : gmap positive (list (ndarray Z)))
    (o : Store.array_obj) (k : Z) (rows : list (ndarray Z)) :
  Store.view h o = Some rows ->
  exists h' out,
    Store.np_bitwise_xor h o k = Some (h', out) /\
    (h ⊆ h') /\ (Store.base out ∉ dom h) /\ Store.flipped out = false /\
    h' !! Store.base out = Some (List.map (nd_map (fun v => Z.lxor v k)) rows).
Proof.
  intros Hv. unfold Store.np_bitwise_xor. rewrite Hv.
  pose proof (is_fresh (dom h)) as Hfresh.
  eexists _, _. split; [reflexivity |]. simpl.
  repeat split.
  - apply insert_subseteq. by apply not_elem_of_dom.
  - exact Hfresh.
  - apply lookup_insert_eq.
Qed.

Lemma view_weaken (h h' : gmap positive (list (ndarray Z)))
    (o : Store.array_obj) (rows : list (ndarray Z)) :
  h ⊆ h' -> Store.view h o = Some rows -> Store.view h' o = Some rows.
Proof.
  unfold Store.view. intros Hsub Hv.
  destruct (h !! Store.base o) as [buf |] eqn:Hb; [| done].
  by rewrite (lookup_weaken _ _ _ _ Hb Hsub).
Qed.

(** C8. Whatever the memory [h] and the array object [img] (itself
    possibly a view), [encrypt_pixels] and [decrypt_pixels] leave every
    buffer that existed before the call as it was, so [img] shows the
    same rows afterwards, and their result lives in a buffer that did not
    exist before; what the result shows is the value computed by the pure
    functions. *)
Theorem pixel_codec_no_mutation (h : gmap positive (list (ndarray Z)))
    (img : Store.array_obj) (k : Z) (rows : list (ndarray Z)) :
  Store.view h img = Some rows ->
  (exists h' out y,
     Store.encrypt_pixels h img k = Some (h', out) /\
     (h ⊆ h') /\ Store.view h' img = Some rows /\
     (Store.base out ∉ dom h) /\
     encrypt_pixels (Axis rows) k = Ok (Axis y) /\ Store.view h' out = Some y) /\
  (exists h' out y,
     Store.decrypt_pixels h img k = Some (h', out) /\
     (h ⊆ h') /\ Store.view h' img = Some rows /\
     (Store.base out ∉ dom h) /\
     decrypt_pixels (Axis rows) k = Ok (Axis y) /\ Store.view h' out = Some y).
Proof.
  intros Hv. split.
  - assert (Hflip : Store.view h (Store.np_flipud img) = Some (rev rows)).
    { unfold Store.view in *. simpl.
      destruct (h !! Store.base img) as [buf |]; [| done]. simpl in *.
      injection Hv as <-. destruct (Store.flipped img); simpl; [| done].
      by rewrite rev_involutive. }
    destruct (np_bitwise_xor_fresh h _ k _ Hflip) as (h' & out & Hx & Hsub & Hnew & Hfl & Hbuf).
    exists h', out, (List.map (nd_map (fun v => Z.lxor v k)) (rev rows)).
    repeat split; try done.
    + by apply (view_weaken h).
    + unfold Store.view. by rewrite Hbuf, Hfl.
  - destruct (np_bitwise_xor_fresh h _ k _ Hv) as (h' & out & Hx & Hsub & Hnew & Hfl & Hbuf).
    exists h', (Store.np_flipud out), (rev (List.map (nd_map (fun v => Z.lxor v k)) rows)).
    repeat split; try done.
    + unfold Store.decrypt_pixels. by rewrite Hx.
    + by apply (view_weaken h).
    + unfold Store.view. simpl. by rewrite Hbuf, Hfl.
Qed.

Lemma pixel_codec_no_mutation_witness :
  let rows := [Axis [Item 10; Item 20]; Axis [Item 30; Item 40]] in
  let h : gmap positive (list (ndarray Z)) := {[ 1%positive := rows ]} in
  let img := {| Store.base := 1%positive; Store.flipped := false |} in
  (exists h' out y,
     Store.encrypt_pixels h img 5 = Some (h', out) /\
     (h ⊆ h') /\ Store.view h' img = Some rows /\
     (Store.base out ∉ dom h) /\
     encrypt_pixels (Axis rows) 5 = Ok (Axis y) /\ Store.view h' out = Some y) /\
  (exists h' out y,
     Store.decrypt_pixels h img 5 = Some (h', out) /\
     (h ⊆ h') /\ Store.view h' img = Some rows /\
     (Store.base out ∉ dom h) /\
     decrypt_pixels (Axis rows) 5 = Ok (Axis y) /\ Store.view h' out = Some y).
Proof.
  intros rows h img.
  apply (pixel_codec_no_mutation h img 5 rows).
  reflexivity.
Defined.

(** ** Input validation *)

Example int_of_string_samples :
  int_of_string "300" = Some 300 /\ int_of_string " -1 " = Some (-1) /\
  int_of_string "1_000" = Some 1000 /\ int_of_string "12a" = None /\
  int_of_string "" = None /\ int_of_string "4_" = None.
Proof. repeat split; reflexivity. Qed.

Section get_int_input_facts.
Variable E : env.
Variables (prompt : string) (min_val max_val : Z).

(** A rejected entry costs one line and two lines of console text, and
    the loop goes on. *)
Lemma get_int_input_loop_rejected (line : string) (rest : list string) (ev : list event) :
  rejected_entry E min_val max_val line = true ->
  exists notice,
    get_int_input_loop E prompt min_val max_val (line :: rest) ev
    = get_int_input_loop E prompt min_val max_val rest
        ((ev ++ [Print prompt]) ++ [Print notice]).
Proof.
  unfold rejected_entry. intros Hrej. simpl.
  destruct (py_int E line) as [val |].
  - apply negb_true_iff in Hrej. rewrite Hrej. eauto.
  - eauto.
Qed.

Lemma get_int_input_loop_accepted (line : string) (rest : list string)
    (ev : list event) (val : Z) :
  py_int E line = Some val -> min_val <= val <= max_val ->
  get_int_input_loop E prompt min_val max_val (line :: rest) ev
  = (Ok val, {| stdin := rest; events := ev ++ [Print prompt] |}).
Proof.
  intros Hint Hrange. simpl. rewrite Hint.
  replace ((min_val <=? val) && (val <=? max_val)) with true; [done |].
  symmetry. apply andb_true_iff. split; apply Z.leb_le; lia.
Qed.

(** Whatever the loop returns was entered as a line, is an integer in
    range, and every line before it was rejected. *)
Lemma get_int_input_loop_returns (lines : list string) (ev : list event)
    (val : Z) (st' : state) :
  get_int_input_loop E prompt min_val max_val lines ev = (Ok val, st') ->
  min_val <= val <= max_val /\
  exists skipped line,
    lines = skipped ++ line :: stdin st' /\
    py_int E line = Some val /\
    forallb (rejected_entry E min_val max_val) skipped = true.
Proof.
  revert ev. induction lines as [| line rest IH]; intros ev Hrun; simpl in Hrun.
  - discriminate.
  - destruct (py_int E line) as [v |] eqn:Hint.
    + destruct ((min_val <=? v) && (v <=? max_val)) eqn:Hrange.
      * injection Hrun as <- <-. simpl.
        apply andb_true_iff in Hrange as [H1 H2]. apply Z.leb_le in H1, H2.
        split; [lia |]. exists [], line. by repeat split.
      * destruct (IH _ Hrun) as (Hv & skipped & l & -> & Hl & Hsk).
        split; [done |]. exists (line :: skipped), l. repeat split; try done.
        simpl. unfold rejected_entry at 1. by rewrite Hint, Hrange, Hsk.
    + destruct (IH _ Hrun) as (Hv & skipped & l & -> & Hl & Hsk).
      split; [done |]. exists (line :: skipped), l. repeat split; try done.
      simpl. unfold rejected_entry at 1. by rewrite Hint, Hsk.
Qed.

(** The loop does return once a valid entry arrives. *)
Lemma get_int_input_loop_progress (skipped : list string) (line : string)
    (rest : list string) (ev : list event) (val : Z) :
  forallb (rejected_entry E min_val max_val) skipped = true ->
  py_int E line = Some val -> min_val <= val <= max_val ->
  exists ev',
    get_int_input_loop E prompt min_val max_val (skipped ++ line :: rest) ev
    = (Ok val, {| stdin := rest; events := ev' |}).
Proof.
  intros Hsk Hint Hrange. revert ev.
  induction skipped as [| s skipped IH]; intros ev.
  - simpl app. rewrite (get_int_input_loop_accepted _ _ _ val) by done. eauto.
  - simpl in Hsk. apply andb_true_iff in Hsk as [Hs Hsk].
    destruct (get_int_input_loop_rejected s (skipped ++ line :: rest) ev Hs)
      as [notice Heq].
    simpl app. rewrite Heq. by apply IH.
Qed.

(** Without a valid entry the loop ends only because the input does. *)
Lemma get_int_input_loop_exhausted (lines : list string) (ev : list event) :
  forallb (rejected_entry E min_val max_val) lines = true ->
  exists ev',
    get_int_input_loop E prompt min_val max_val lines ev
    = (Raise EOFError, {| stdin := []; events := ev' |}).
Proof.
  revert ev. induction lines as [| s lines IH]; intros ev Hall.
  - simpl. eauto.
  - simpl in Hall. apply andb_true_iff in Hall as [Hs Hall].
    destruct (get_int_input_loop_rejected s lines ev Hs) as [notice Heq].
    rewrite Heq. by apply IH.
Qed.

(** The loop writes to the console only. *)
Lemma get_int_input_loop_writes (lines : list string) (ev : list event) :
  writes (snd (get_int_input_loop E prompt min_val max_val lines ev))
  = List.filter is_write ev.
Proof.
  revert ev. induction lines as [| s lines IH]; intros ev; simpl.
  - unfold writes. simpl. rewrite List.filter_app. simpl. by rewrite app_nil_r.
  - assert (Hstep : forall notice,
              List.filter is_write ((ev ++ [Print prompt]) ++ [Print notice])
              = List.filter is_write ev).
    { intros notice. rewrite !List.filter_app. simpl. by rewrite !app_nil_r. }
    destruct (py_int E s) as [v |].
    + destruct ((min_val <=? v) && (v <=? max_val)).
      * unfold writes. simpl. rewrite List.filter_app. simpl. by rewrite app_nil_r.
      * by rewrite IH, Hstep.
    + by rewrite IH, Hstep.
Qed.

End get_int_input_facts.

(** ** Events are only appended *)

Lemma framed_ret {A} (a : A) : framed (ret a).
Proof. intros l ev. unfold ret. simpl. by rewrite app_nil_r. Qed.

Lemma framed_lift {A} (r : result A) : framed (lift r).
Proof. intros l ev. unfold lift. simpl. by rewrite app_nil_r. Qed.

Lemma framed_emit (e : event) : framed (emit e).
Proof. intros l ev. reflexivity. Qed.

Lemma framed_print (text : string) : framed (print text).
Proof. apply framed_emit. Qed.

Lemma framed_input (prompt : string) : framed (input prompt).
Proof. intros [| line rest] ev; reflexivity. Qed.

Lemma framed_bind {A B} (m : io A) (k : A -> io B) :
  framed m -> (forall a, framed (k a)) -> framed (bind m k).
Proof.
  intros Hm Hk l ev. unfold bind. rewrite (Hm l ev).
  destruct (m {| stdin := l; events := [] |}) as [[a | e] [l1 ev1]]; simpl.
  - rewrite (Hk a l1 (ev ++ ev1)), (Hk a l1 ev1). simpl. by rewrite app_assoc.
  - reflexivity.
Qed.

Lemma get_int_input_loop_framed (E : env) (prompt : string) (min_val max_val : Z)
    (lines : list string) (ev : list event) :
  get_int_input_loop E prompt min_val max_val lines ev
  = (fst (get_int_input_loop E prompt min_val max_val lines []),
     {| stdin := stdin (snd (get_int_input_loop E prompt min_val max_val lines []));
        events := ev ++ events (snd (get_int_input_loop E prompt min_val max_val lines [])) |}).
Proof.
  revert ev. induction lines as [| s lines IH]; intros ev; simpl; [done |].
  destruct (py_int E s) as [v |].
  - destruct ((min_val <=? v) && (v <=? max_val)); [done |].
    rewrite IH. rewrite (IH [_; _]). simpl.
    by rewrite <- !app_assoc.
  - rewrite IH. rewrite (IH [_; _]). simpl.
    by rewrite <- !app_assoc.
Qed.

Lemma framed_get_int_input (E : env) (prompt : string) (min_val max_val : Z) :
  framed (get_int_input E prompt min_val max_val).
Proof. intros l ev. apply get_int_input_loop_framed. Qed.

Lemma framed_load_image (E : env) (path : string) (as_gray : bool) :
  framed (load_image E path as_gray).
Proof.
  destruct as_gray; simpl.
  - destruct (cv2_imread_gray E path);
      [apply framed_ret | apply framed_bind; [apply framed_print | intros; apply framed_ret]].
  - destruct (pil_open E path) as [[array mode] | e];
      [apply framed_ret | apply framed_bind; [apply framed_print | intros; apply framed_ret]].
Qed.

Lemma framed_handler {A B} (m : io A) (on_ok : A -> io B) (on_raise : exn -> io B) :
  framed m -> (forall a, framed (on_ok a)) -> (forall e, framed (on_raise e)) ->
  framed (fun st => match m st with
                    | (Ok a, st') => on_ok a st'
                    | (Raise e, st') => on_raise e st'
                    end).
Proof.
  intros Hm Hok Hraise l ev. rewrite (Hm l ev).
  destruct (m {| stdin := l; events := [] |}) as [[a | e] [l1 ev1]]; simpl.
  - rewrite (Hok a l1 (ev ++ ev1)), (Hok a l1 ev1). simpl. by rewrite app_assoc.
  - rewrite (Hraise e l1 (ev ++ ev1)), (Hraise e l1 ev1). simpl. by rewrite app_assoc.
Qed.

Lemma framed_save_image (E : env) (array : ndarray Z) (mode : option string)
    (path : string) :
  framed (save_image E array mode path).
Proof.
  unfold save_image.
  apply (framed_handler _ (fun _ => print _) (fun e => print _)).
  - assert (Hpil : framed
      (bind (lift (pil_save E path mode (nd_map cast_uint8 array)))
            (fun _ => emit (WriteImage path mode (nd_map cast_uint8 array))))).
    { apply framed_bind; [apply framed_lift | intros; apply framed_emit]. }
    assert (Hcv : framed
      (bind (lift (cv2_imwrite E path array))
            (fun written : bool =>
               if written then emit (WriteImage path mode array) else ret tt))).
    { apply framed_bind; [apply framed_lift |].
      intros []; [apply framed_emit | apply framed_ret]. }
    destruct mode as [m |]; [| exact Hpil].
    destruct m as [| a m]; [exact Hpil |].
    destruct a as [[] [] [] [] [] [] [] []]; try exact Hpil.
    destruct m; [exact Hcv | exact Hpil].
  - intros. apply framed_print.
  - intros. apply framed_print.
Qed.

(** ** The key prompt in the driver *)

(** The pixel branch of [main] after the method, the direction and the
    path have been read: the key is asked for next, and nothing has been
    written. *)
Lemma main_pixel_branch (E : env) (c op path : string) :
  strip c = "1" ->
  exists (k : Z -> io unit) (ev : list event),
    (forall key, framed (k key)) /\
    List.filter is_write ev = [] /\
    forall lines,
      main E {| stdin := c :: op :: path :: lines; events := [] |}
      = bind (get_int_input E "Enter encryption key (0-255): " 0 255) k
          {| stdin := lines; events := ev |}.
Proof.
  intros Hc. unfold main.
  cbn -[strip lower String.eqb String.append newline get_int_input load_image save_image].
  rewrite Hc.
  cbn -[strip lower String.append newline get_int_input load_image save_image].
  eexists _, _. split; [| split]. 3: (intros lines; reflexivity).
  - intros key. apply framed_bind; [apply framed_input |]. intros output.
    apply framed_bind; [apply (framed_load_image E _ false) |]. intros [[img |] mode].
    + apply (framed_bind (lift _)); [apply framed_lift |]. intros. apply framed_save_image.
    + apply framed_ret.
  - reflexivity.
Qed.

(** C7. [get_int_input] returns only an integer in [[min_val, max_val]]:
    the value it returns is the first entry that is an integer in range,
    every entry before it having been turned down, and it does return
    when such an entry arrives.  Hence in the pixel method an entry of
    300 for the key is turned down before anything else happens: the run
    has the result, the remaining input and the written files of the run
    in which the entry was never made, and if the input ends there,
    nothing is loaded, transformed or written. *)
Theorem key_validated_before_transform (E : env) (prompt : string)
    (min_val max_val : Z) (c op path : string) :
  py_int E "300" = Some 300 -> strip c = "1" ->
  (forall st val st',
     get_int_input E prompt min_val max_val st = (Ok val, st') ->
     min_val <= val <= max_val /\
     exists skipped line,
       stdin st = skipped ++ line :: stdin st' /\
       py_int E line = Some val /\
       forallb (rejected_entry E min_val max_val) skipped = true) /\
  (forall skipped line rest ev val,
     forallb (rejected_entry E min_val max_val) skipped = true ->
     py_int E line = Some val -> min_val <= val <= max_val ->
     exists ev',
       get_int_input E prompt min_val max_val
         {| stdin := skipped ++ line :: rest; events := ev |}
       = (Ok val, {| stdin := rest; events := ev' |})) /\
  (forall rest,
     let entered := main E {| stdin := c :: op :: path :: "300" :: rest; events := [] |} in
     let omitted := main E {| stdin := c :: op :: path :: rest; events := [] |} in
     fst entered = fst omitted /\
     stdin (snd entered) = stdin (snd omitted) /\
     writes (snd entered) = writes (snd omitted)) /\
  (let r := main E {| stdin := [c; op; path; "300"]; events := [] |} in
   fst r = Raise EOFError /\ writes (snd r) = []).
Proof.
  intros H300 Hc.
  destruct (main_pixel_branch E c op path Hc) as (k & ev0 & Hk & Hev0 & Hmain).
  assert (Hrej : rejected_entry E 0 255 "300" = true).
  { unfold rejected_entry. by rewrite H300. }
  set (ask := get_int_input E "Enter encryption key (0-255): " 0 255) in *.
  assert (Hframed : framed (bind ask k)).
  { apply framed_bind; [apply framed_get_int_input | exact Hk]. }
  assert (Hskip : forall rest, exists notice,
            bind ask k {| stdin := "300" :: rest; events := ev0 |}
            = bind ask k {| stdin := rest;
                            events := ev0 ++ List.map Print ["Enter encryption key (0-255): "; notice] |}).
  { intros rest.
    destruct (get_int_input_loop_rejected E "Enter encryption key (0-255): " 0 255
                "300" rest ev0 Hrej) as [notice Hn].
    exists notice. unfold bind, ask, get_int_input. simpl stdin. simpl events.
    rewrite Hn. simpl. by rewrite <- app_assoc. }
  assert (Hsame : forall rest,
     let entered := main E {| stdin := c :: op :: path :: "300" :: rest; events := [] |} in
     let omitted := main E {| stdin := c :: op :: path :: rest; events := [] |} in
     fst entered = fst omitted /\
     stdin (snd entered) = stdin (snd omitted) /\
     writes (snd entered) = writes (snd omitted)).
  { intros rest. simpl. rewrite !Hmain.
    destruct (Hskip rest) as [notice ->].
    rewrite (Hframed rest (ev0 ++ _)), (Hframed rest ev0). simpl.
    repeat split. unfold writes. simpl.
    rewrite !List.filter_app. simpl. by rewrite app_nil_r. }
  split; [| split; [| split; [exact Hsame |]]].
  - intros [lines ev] val st' Hrun. apply (get_int_input_loop_returns E _ _ _ _ _ _ _ Hrun).
  - intros skipped line rest ev val Hsk Hint Hrange.
    by apply (get_int_input_loop_progress E).
  - simpl. destruct (Hsame []) as (-> & _ & ->). rewrite Hmain.
    unfold bind, ask, get_int_input. simpl. split; [done |].
    unfold writes. simpl. rewrite List.filter_app, Hev0. done.
Qed.

Lemma key_validated_before_transform_witness :
  (forall st val st',
     get_int_input empty_world "key: " 0 255 st = (Ok val, st') ->
     0 <= val <= 255 /\
     exists skipped line,
       stdin st = skipped ++ line :: stdin st' /\
       py_int empty_world line = Some val /\
       forallb (rejected_entry empty_world 0 255) skipped = true) /\
  (forall skipped line rest ev val,
     forallb (rejected_entry empty_world 0 255) skipped = true ->
     py_int empty_world line = Some val -> 0 <= val <= 255 ->
     exists ev',
       get_int_input empty_world "key: " 0 255
         {| stdin := skipped ++ line :: rest; events := ev |}
       = (Ok val, {| stdin := rest; events := ev' |})) /\
  (forall rest,
     let entered := main empty_world {| stdin := " 1 " :: "e" :: "a.png" :: "300" :: rest; events := [] |} in
     let omitted := main empty_world {| stdin := " 1 " :: "e" :: "a.png" :: rest; events := [] |} in
     fst entered = fst omitted /\
     stdin (snd entered) = stdin (snd omitted) /\
     writes (snd entered) = writes (snd omitted)) /\
  (let r := main empty_world {| stdin := [" 1 "; "e"; "a.png"; "300"]; events := [] |} in
   fst r = Raise EOFError /\ writes (snd r) = []).
Proof.
  apply (key_validated_before_transform empty_world "key: " 0 255 " 1 " "e" "a.png").
  - reflexivity.
  - reflexivity.
Defined.

(** ** Loading a grayscale image *)

(** C10. When [cv2.imread] cannot read the path and returns [None],
    [load_image] with [as_gray=True] returns the pair [(None, "L")]
    without raising and without printing: the array is [None], the mode
    is not.  The driver tests the array component: in the Laplacian
    branch and in the Fourier encryption branch it then returns without
    transforming or writing anything. *)
Theorem load_image_gray_unreadable (E : env) (path : string) (st : state)
    (c3 p3 o3 c2 op p2 s2 o2 : string) (rest : list string) :
  cv2_imread_gray E path = Ok None ->
  strip c3 = "3" -> strip p3 = path ->
  strip c2 = "2" -> lower (strip op) = "e" -> strip p2 = path ->
  load_image E path true st = (Ok (None, Some "L"), st) /\
  (let r := main E {| stdin := c3 :: p3 :: o3 :: rest; events := [] |} in
   fst r = Ok tt /\ stdin (snd r) = rest /\ writes (snd r) = []) /\
  (let r := main E {| stdin := c2 :: op :: p2 :: s2 :: o2 :: rest; events := [] |} in
   fst r = Ok tt /\ stdin (snd r) = rest /\ writes (snd r) = []).
Proof.
  intros Hread Hc3 Hp3 Hc2 Hop Hp2. split; [| split].
  - simpl. by rewrite Hread.
  - unfold main.
    cbn -[strip lower String.eqb String.append newline get_int_input load_image save_image].
    rewrite Hc3.
    cbn -[strip lower String.append newline get_int_input load_image save_image].
    rewrite Hp3. unfold bind at 1. simpl load_image. rewrite Hread. simpl. done.
  - unfold main.
    cbn -[strip lower String.eqb String.append newline get_int_input load_image save_image].
    rewrite Hc2.
    cbn -[strip lower String.append newline get_int_input load_image save_image].
    rewrite Hop.
    cbn -[strip lower String.append newline get_int_input load_image save_image].
    rewrite Hp2. unfold bind at 1. simpl load_image. rewrite Hread. simpl. done.
Qed.

Lemma load_image_gray_unreadable_witness :
  load_image empty_world "missing.png" true {| stdin := []; events := [] |}
  = (Ok (None, Some "L"), {| stdin := []; events := [] |}) /\
  (let r := main empty_world
              {| stdin := ["3"; " missing.png"; "edges.png"; "left over"]; events := [] |} in
   fst r = Ok tt /\ stdin (snd r) = ["left over"] /\ writes (snd r) = []) /\
  (let r := main empty_world
              {| stdin := ["2"; "E"; "missing.png"; "s.npy"; "mag.png"; "left over"];
                 events := [] |} in
   fst r = Ok tt /\ stdin (snd r) = ["left over"] /\ writes (snd r) = []).
Proof.
  apply (load_image_gray_unreadable empty_world "missing.png"
           {| stdin := []; events := [] |}
           "3" " missing.png" "edges.png" "2" "E" "missing.png" "s.npy" "mag.png"
           ["left over"]); reflexivity.
Defined.

(** ** Decryption from a spectrum file *)

Lemma ifft2_nd_few_axes (a : ndarray C) :
  (ndim a < 2)%nat -> exists e, ifft2_nd a = Raise e.
Proof.
  destruct a as [x | [| y items]]; simpl.
  - eauto.
  - eauto.
  - destruct y as [x | sub]; simpl; [| destruct sub; simpl; lia].
    intros _. eauto.
Qed.

Lemma decrypt_fourier_raise (E : env) (path : string) (st : state) (e : exn) :
  rbind (np_load E path) ifft2_nd = Raise e ->
  decrypt_fourier E path st
  = (Ok None,
     {| stdin := stdin st;
        events := events st ++ [Print ("❌ Error decrypting Fourier data: " ++ exn_text e)] |}).
Proof. intros Hr. unfold decrypt_fourier. rewrite Hr. reflexivity. Qed.

(** C5, as stated, fails: a spectrum file that holds an array of shape
    [(1, 1, 1)] is not a two-dimensional array, and yet [decrypt_fourier]
    returns an array for it, which the driver writes to the output file. *)
Lemma decrypt_fourier_accepts_three_axes :
  np_load three_axes_world "cube.npy" = Ok (Axis [Axis [Axis [Item (4%R, 0%R)]]]) /\
  as_matrix (Axis [Axis [Axis [Item (4%R, 0%R)]]]) = None /\
  ndim (Axis [Axis [Axis [Item (4%R, 0%R)]]]) = 3%nat /\
  exists r,
    fst (decrypt_fourier three_axes_world "cube.npy" {| stdin := []; events := [] |})
    = Ok (Some r) /\
    writes (snd (main three_axes_world
                   {| stdin := ["2"; "d"; "cube.npy"; "out.png"]; events := [] |}))
    = [WriteImage "out.png" (Some "L") r].
Proof.
  repeat split. eexists. split; reflexivity.
Qed.

(** C5, amended. When [np.load] raises (the file is missing or corrupt)
    or yields an array with fewer than two axes, [decrypt_fourier] prints
    the error, returns [None] and does not raise, and the driver then
    returns without writing anything.  Nothing is checked beyond that: an
    array with two or more axes is transformed and saved whatever its
    rank. *)
Theorem decrypt_fourier_failure (E : env) (path : string) (st : state)
    (c op p o : string) (rest : list string) :
  (exists e, np_load E path = Raise e) \/
  (exists a, np_load E path = Ok a /\ (ndim a < 2)%nat) ->
  strip c = "2" -> lower (strip op) = "d" -> strip p = path ->
  (exists text,
     decrypt_fourier E path st
     = (Ok None, {| stdin := stdin st; events := events st ++ [Print text] |})) /\
  (let r := main E {| stdin := c :: op :: p :: o :: rest; events := [] |} in
   fst r = Ok tt /\ stdin (snd r) = rest /\ writes (snd r) = []).
Proof.
  intros Hload Hc Hop Hp.
  assert (Hraise : exists e, rbind (np_load E path) ifft2_nd = Raise e).
  { destruct Hload as [[e He] | (a & Ha & Hdim)]; rewrite ?He, ?Ha; simpl.
    - eauto.
    - by apply ifft2_nd_few_axes. }
  destruct Hraise as [e He]. split.
  - eexists. by apply decrypt_fourier_raise.
  - unfold main.
    cbn -[strip lower String.eqb String.append newline get_int_input load_image save_image decrypt_fourier].
    rewrite Hc.
    cbn -[strip lower String.append newline get_int_input load_image save_image decrypt_fourier].
    rewrite Hop.
    cbn -[strip lower String.append newline get_int_input load_image save_image decrypt_fourier].
    rewrite Hp. unfold bind. rewrite (decrypt_fourier_raise E path _ e He).
    simpl. done.
Qed.

Lemma decrypt_fourier_failure_witness :
  (exists text,
     decrypt_fourier empty_world "missing.npy" {| stdin := []; events := [] |}
     = (Ok None, {| stdin := []; events := [] ++ [Print text] |})) /\
  (let r := main empty_world
              {| stdin := ["2"; " D "; "missing.npy"; "out.png"; "left over"];
                 events := [] |} in
   fst r = Ok tt /\ stdin (snd r) = ["left over"] /\ writes (snd r) = []).
Proof.
  apply (decrypt_fourier_failure empty_world "missing.npy"
           {| stdin := []; events := [] |}
           "2" " D " "missing.npy" "out.png" ["left over"]).
  - left. eexists. reflexivity.
  - reflexivity.
  - reflexivity.
  - reflexivity.
Defined.

(** ** Dimensions *)

Lemma rectangular_spec {A} (h w : nat) (m : matrix A) :
  rectangular h w m = true <-> length m = h /\ Forall (fun row => length row = w) m.
Proof.
  unfold rectangular. rewrite andb_true_iff, Nat.eqb_eq, forallb_forall, Forall_forall.
  split; intros [Hh Hw]; (split; [done |]); intros row Hin.
  - apply Nat.eqb_eq, Hw. by apply list_elem_of_In.
  - apply Nat.eqb_eq, Hw. by apply list_elem_of_In.
Qed.

Lemma rectangular_map {A B} (f : A -> B) (h w : nat) (m : matrix A) :
  rectangular h w (List.map (List.map f) m) = rectangular h w m.
Proof.
  unfold rectangular. rewrite length_map. f_equal.
  induction m as [| row m IH]; simpl; [done |]. by rewrite length_map, IH.
Qed.

Lemma matrix_map_map {A B D} (f : A -> B) (g : B -> D) (m : matrix A) :
  List.map (List.map g) (List.map (List.map f) m)
  = List.map (List.map (fun x => g (f x))) m.
Proof.
  rewrite List.map_map. apply map_ext. intros row. apply List.map_map.
Qed.

Lemma rectangular_map_rows {A B} (g : list A -> A -> B) (h w : nat) (m : matrix A) :
  rectangular h w (List.map (fun row => List.map (g row) row) m) = rectangular h w m.
Proof.
  unfold rectangular. rewrite length_map. f_equal.
  induction m as [| row m IH]; simpl; [done |]. by rewrite length_map, IH.
Qed.

Lemma rectangular_imap {A B} (f : nat -> list A -> nat -> A -> B) (h w : nat)
    (m : matrix A) :
  rectangular h w (imap (fun i row => imap (f i row) row) m) = rectangular h w m.
Proof.
  unfold rectangular. rewrite length_imap. f_equal.
  revert f. induction m as [| row m IH]; intros f; simpl; [done |].
  rewrite length_imap. f_equal. apply (IH (fun i => f (S i))).
Qed.

Lemma roll_half_length {A} (l : list A) : length (roll_half l) = length l.
Proof.
  unfold roll_half. rewrite length_app, length_drop, length_take.
  pose proof (Nat.Div0.div_le_upper_bound (length l) 2 (length l)). lia.
Qed.

Lemma roll_half_Forall {A} (P : A -> Prop) (l : list A) :
  Forall P l -> Forall P (roll_half l).
Proof.
  intros Hl. unfold roll_half. apply Forall_app.
  split; [by apply Forall_drop | by apply Forall_take].
Qed.

Lemma rectangular_fftshift {A} (h w : nat) (m : matrix A) :
  rectangular h w m = true -> rectangular h w (fftshift m) = true.
Proof.
  rewrite !rectangular_spec. intros [Hh Hw]. unfold fftshift. split.
  - by rewrite roll_half_length, length_map.
  - apply roll_half_Forall. apply Forall_map.
    eapply Forall_impl; [exact Hw |]. intros row Hrow. simpl.
    by rewrite roll_half_length.
Qed.

Lemma zero_size_rectangular {A} (h w : nat) (m : matrix A) :
  (1 <= h)%nat -> (1 <= w)%nat -> rectangular h w m = true -> zero_size m = false.
Proof.
  rewrite rectangular_spec. intros Hh Hw [Hlen Hrows].
  destruct m as [| row m]; simpl in *; [lia |].
  apply Forall_cons in Hrows as [Hrow _]. destruct row; simpl in *; [lia | done].
Qed.

Lemma cast_uint8_range (v : Z) : uint8 (cast_uint8 v) = true.
Proof.
  unfold uint8, cast_uint8. pose proof (Z.mod_pos_bound v 256).
  apply andb_true_iff. split; apply Z.leb_le; lia.
Qed.

Lemma cast_uint8_small (v : Z) : 0 <= v < 256 -> cast_uint8 v = v.
Proof. intros Hv. unfold cast_uint8. by apply Z.mod_small. Qed.

Lemma apply_laplacian_shape (h w : nat) (m : matrix Z) :
  rectangular h w (apply_laplacian m) = rectangular h w m.
Proof.
  unfold apply_laplacian, Laplacian. rewrite !rectangular_map.
  apply (rectangular_imap (fun i row j _ => _)).
Qed.

Lemma apply_laplacian_uint8 (m : matrix Z) :
  forallb (forallb uint8) (apply_laplacian m) = true.
Proof.
  unfold apply_laplacian. apply forallb_forall. intros row Hin.
  apply in_map_iff in Hin as (row' & <- & _).
  apply forallb_forall. intros v Hv. apply in_map_iff in Hv as (v' & <- & _).
  apply cast_uint8_range.
Qed.

Lemma as_vector_items {A} (row : list A) :
  as_vector (Axis (List.map Item row)) = Some row.
Proof.
  simpl. induction row as [| x row IH]; simpl; [done |].
  simpl in IH. by rewrite IH.
Qed.

Lemma as_matrix_of_matrix {A} (m : matrix A) : as_matrix (of_matrix m) = Some m.
Proof.
  unfold of_matrix, as_matrix.
  induction m as [| row m IH]; [done |].
  cbn [List.map mapM]. rewrite as_vector_items. simpl. by rewrite IH.
Qed.

Lemma ndim_of_matrix {A} (m : matrix A) : zero_size m = false -> ndim (of_matrix m) = 2%nat.
Proof. destruct m as [| [| x row] m]; simpl; done. Qed.

Lemma nd_map_of_matrix {A B} (f : A -> B) (m : matrix A) :
  nd_map f (of_matrix m) = of_matrix (List.map (List.map f) m).
Proof.
  unfold of_matrix. simpl. f_equal. rewrite !List.map_map.
  apply map_ext. intros row. simpl. f_equal. by rewrite !List.map_map.
Qed.

Lemma ifft2_nd_of_matrix (m : matrix C) :
  zero_size m = false ->
  exists r, ifft2 m = Ok r /\ ifft2_nd (of_matrix m) = Ok (of_matrix r) /\
            forall h w, rectangular h w m = true -> rectangular h w r = true.
Proof.
  intros Hz. unfold ifft2. rewrite Hz. eexists. split; [reflexivity |]. split.
  - destruct m as [| row m]; [done |].
    change (of_matrix (row :: m)) with (Axis (Axis (List.map Item row) :: List.map (fun row => Axis (List.map Item row)) m)).
    cbn [ifft2_nd].
    change (Axis (Axis (List.map Item row) :: List.map (fun row => Axis (List.map Item row)) m)) with (of_matrix (row :: m)).
    rewrite as_matrix_of_matrix, ndim_of_matrix by done.
    unfold ifft2. rewrite Hz. reflexivity.
  - intros h w Hr. rewrite (rectangular_map_rows (fun row => Cscale _)).
    unfold dft2_sum. by rewrite (rectangular_imap (fun u row v _ => _)).
Qed.

Lemma fft2_shape (m : matrix C) :
  zero_size m = false ->
  exists F, fft2 m = Ok F /\
            forall h w, rectangular h w m = true -> rectangular h w F = true.
Proof.
  intros Hz. unfold fft2. rewrite Hz. eexists. split; [reflexivity |].
  intros h w Hr. unfold dft2_sum. by rewrite (rectangular_imap (fun u row v _ => _)).
Qed.

Lemma encrypt_fourier_run (E : env) (x : matrix Z) (path : string) (st : state) :
  zero_size x = false -> np_save E path = Ok tt ->
  exists F,
    fft2 (List.map (List.map (fun v => of_real (IZR v))) x) = Ok F /\
    (forall h w, rectangular h w x = true -> rectangular h w F = true) /\
    encrypt_fourier E x path st
    = (Ok (List.map (List.map (fun c => astype_uint8 (20 * ln (Cabs c + 1))))
                    (fftshift F)),
       {| stdin := stdin st;
          events := events st ++ [WriteSpectrum (npy_name path) F] |}).
Proof.
  intros Hz Hsave.
  destruct (fft2_shape (List.map (List.map (fun v => of_real (IZR v))) x))
    as (F & HF & Hshape).
  { destruct x as [| [| v row] x]; done. }
  exists F. split; [done |]. split.
  - intros h w Hr. apply Hshape. by rewrite rectangular_map.
  - unfold encrypt_fourier, bind, lift. rewrite HF, Hsave. simpl.
    unfold ret. by rewrite matrix_map_map.
Qed.


Lemma decrypt_fourier_matrix (E : env) (path : string) (st : state) (f : matrix C) :
  zero_size f = false -> np_load E path = Ok (of_matrix f) ->
  exists r,
    ifft2 f = Ok r /\
    (forall h w, rectangular h w f = true -> rectangular h w r = true) /\
    decrypt_fourier E path st
    = (Ok (Some (of_matrix (List.map (List.map (fun c => astype_uint8 (Cabs c))) r))), st).
Proof.
  intros Hz Hload. destruct (ifft2_nd_of_matrix f Hz) as (r & Hr & Hnd & Hshape).
  exists r. repeat split; try done.
  unfold decrypt_fourier. rewrite Hload. cbn [rbind]. rewrite Hnd.
  unfold ret. by rewrite !nd_map_of_matrix, matrix_map_map.
Qed.

(** C6. Every transform returns an array with the dimensions of its
    input: the two pixel functions on an image of any shape, the
    magnitude image of [encrypt_fourier] on a grayscale image, the result
    of [decrypt_fourier] on the spectrum it loads, and [apply_laplacian];
    the samples of [apply_laplacian]'s result lie in [0,255]. *)
Theorem transforms_preserve_dimensions (E : env) (st : state)
    (s : list nat) (x : ndarray Z) (k : Z)
    (h w : nat) (g : matrix Z) (spectrum_file : string)
    (h' w' : nat) (f : matrix C) (path : string) :
  image_array s x = true -> 0 <= k <= 255 ->
  gray_image h w g = true -> np_save E spectrum_file = Ok tt ->
  (1 <= h')%nat -> (1 <= w')%nat -> rectangular h' w' f = true ->
  np_load E path = Ok (of_matrix f) ->
  (exists y, encrypt_pixels x k = Ok y /\ has_shape s y = true) /\
  (exists y, decrypt_pixels x k = Ok y /\ has_shape s y = true) /\
  (exists mag, fst (encrypt_fourier E g spectrum_file st) = Ok mag /\
               rectangular h w mag = true) /\
  (exists r, fst (decrypt_fourier E path st) = Ok (Some (of_matrix r)) /\
             rectangular h' w' r = true) /\
  rectangular h w (apply_laplacian g) = true /\
  forallb (forallb uint8) (apply_laplacian g) = true.
Proof.
  intros Hx Hk Hg Hsave Hh' Hw' Hf Hload.
  destruct (encrypt_pixels_image s x k Hx Hk) as (y & Hy & Himg).
  assert (Hys : has_shape s y = true).
  { unfold image_array in Himg.
    by apply andb_true_iff in Himg as [[_ ?]%andb_true_iff _]. }
  unfold gray_image in Hg.
  apply andb_true_iff in Hg as [[[Hh Hw]%andb_true_iff Hrect]%andb_true_iff Hu8].
  apply Nat.leb_le in Hh, Hw.
  split; [by exists y |]. split.
  { exists y. split; [| done]. rewrite <- Hy. symmetry. apply flip_xor_commute. }
  split.
  { destruct (encrypt_fourier_run E g spectrum_file st) as (F & _ & HF & ->);
      [by apply (zero_size_rectangular h w) | done |].
    eexists. split; [reflexivity |].
    rewrite rectangular_map. apply rectangular_fftshift. by apply HF. }
  split.
  { destruct (decrypt_fourier_matrix E path st f) as (r & _ & Hr & ->);
      [by apply (zero_size_rectangular h' w') | done |].
    eexists. split; [reflexivity |].
    rewrite rectangular_map. by apply Hr. }
  split.
  - by rewrite apply_laplacian_shape.
  - apply apply_laplacian_uint8.
Qed.

Lemma transforms_preserve_dimensions_witness :
  let x := of_matrix [[10; 20]; [30; 40]] in
  let g := [[1; 2; 3]; [4; 5; 6]] in
  let st := {| stdin := []; events := [] |} in
  (exists y, encrypt_pixels x 5 = Ok y /\ has_shape [2%nat; 2%nat] y = true) /\
  (exists y, decrypt_pixels x 5 = Ok y /\ has_shape [2%nat; 2%nat] y = true) /\
  (exists mag, fst (encrypt_fourier one_row_world g "s.npy" st) = Ok mag /\
               rectangular 2 3 mag = true) /\
  (exists r, fst (decrypt_fourier one_row_world "s.npy" st) = Ok (Some (of_matrix r)) /\
             rectangular 1 2 r = true) /\
  rectangular 2 3 (apply_laplacian g) = true /\
  forallb (forallb uint8) (apply_laplacian g) = true.
Proof.
  intros x g st.
  apply (transforms_preserve_dimensions one_row_world st [2%nat; 2%nat] x 5
           2 3 g "s.npy" 1 2 [[(4%R, 0%R); (0%R, 0%R)]] "s.npy");
    try reflexivity; lia.
Defined.

Example apply_laplacian_sample :
  Laplacian [[1; 2]; [3; 4]] = [[6; 2]; [-2; -6]] /\
  apply_laplacian [[1; 2]; [3; 4]] = [[6; 2]; [2; 6]] /\
  apply_laplacian [[0; 0; 0]; [0; 255; 0]; [0; 0; 0]]
  = [[0; 254; 0]; [254; 252; 254]; [0; 254; 0]].
Proof. repeat split; reflexivity. Qed.

(** ** Magnitude image *)

Lemma trunc_nonneg (r : R) : (0 <= r)%R -> trunc r = Int_part r.
Proof. intros Hr. unfold trunc. by destruct (Rle_dec 0 r). Qed.

Lemma trunc_between (r : R) (a b : Z) :
  0 <= a -> (IZR a <= r < IZR b)%R -> a <= trunc r < b.
Proof.
  intros Ha [Hlo Hhi].
  assert (H0 : (0 <= r)%R).
  { apply Rle_trans with (IZR a); [by apply IZR_le | done]. }
  rewrite trunc_nonneg by done.
  destruct (base_Int_part r) as [Hfloor Hfrac]. split.
  - assert (Hlt : (IZR a < IZR (Int_part r + 1))%R) by (rewrite plus_IZR; lra).
    apply lt_IZR in Hlt. lia.
  - apply lt_IZR. lra.
Qed.

Lemma trunc_IZR (z : Z) : 0 <= z -> trunc (IZR z) = z.
Proof.
  intros Hz. rewrite trunc_nonneg by (by apply IZR_le).
  symmetry. apply Int_part_spec. lra.
Qed.

Lemma ln_10_bounds : (21 / 20 < ln 10 < 10)%R.
Proof.
  split.
  - rewrite <- (ln_exp (21 / 20)). apply ln_increasing; [apply exp_pos |].
    replace (21 / 20)%R with (1 + 1 / 20)%R by lra. rewrite exp_plus.
    pose proof exp_le_3 as H3.
    assert (H20 : (exp (1 / 20) < exp 1)%R) by (apply exp_increasing; lra).
    pose proof (exp_pos 1) as Hp1. pose proof (exp_pos (1 / 20)) as Hp2.
    nra.
  - rewrite <- (ln_exp 10) at 2. apply ln_increasing; [lra |].
    pose proof (exp_ineq1 10). lra.
Qed.

Lemma Cabs_real (x : R) : (0 <= x)%R -> Cabs (x, 0%R) = x.
Proof.
  intros Hx. unfold Cabs. simpl.
  replace (x * x + 0 * 0)%R with (x * x)%R by lra. by apply sqrt_square.
Qed.

(** The transform of a single sample is the sample. *)
Lemma dft2_sum_single (sign x : R) : dft2_sum sign [[(x, 0%R)]] = [[(x, 0%R)]].
Proof.
  unfold dft2_sum, Csum, Cmul, Cadd, cis. simpl.
  replace (sign * 2 * PI * (0 * 0 / 1 + 0 * 0 / 1))%R with 0%R by lra.
  rewrite cos_0, sin_0. do 2 f_equal. f_equal; lra.
Qed.

(** C4, as stated, fails: on the one-pixel image [[9]] the spectrum is
    [[9]], the code returns [trunc (20 * ln 10)], which is at least 21,
    and the formula of the specification gives [20 * log10 10 = 20]. *)
Lemma magnitude_is_not_log10 :
  exists F mag,
    fft2 [[of_real 9]] = Ok F /\
    fst (encrypt_fourier empty_world [[9]] "s.npy" {| stdin := []; events := [] |})
    = Ok mag /\
    mag <> List.map (List.map spec_magnitude) (fftshift F).
Proof.
  exists [[(9%R, 0%R)]].
  exists [[astype_uint8 (20 * ln (Cabs (9%R, 0%R) + 1))]].
  assert (HF : fft2 [[of_real 9]] = Ok [[(9%R, 0%R)]]).
  { unfold fft2, of_real. simpl zero_size. cbv iota. by rewrite dft2_sum_single. }
  split; [exact HF |]. split.
  - unfold encrypt_fourier, bind, lift. cbn [List.map].
    rewrite HF. reflexivity.
  - unfold fftshift, roll_half. simpl. intros Heq.
    injection Heq as Heq. revert Heq.
    unfold astype_uint8, spec_magnitude, spec_clip_uint8, spec_log10.
    rewrite Cabs_real by lra.
    replace (9 + 1)%R with 10%R by lra.
    pose proof ln_10_bounds as [Hlo Hhi].
    replace (20 * (ln 10 / ln 10))%R with (IZR 20) by (field; lra).
    rewrite trunc_IZR by lia.
    pose proof (trunc_between (20 * ln 10) 21 256) as Hb.
    rewrite cast_uint8_small; [| split; [|apply Hb]; try lia; try (split; lra)].
    + intros Hc. assert (21 <= trunc (20 * ln 10)) by (apply Hb; [lia | split; lra]). lia.
    + assert (21 <= trunc (20 * ln 10)) by (apply Hb; [lia | split; lra]). lia.
Qed.

Lemma roll_half_lookup {A} (l : list A) (i : nat) :
  (i < length l)%nat ->
  roll_half l !! i = l !! ((i + (length l - length l / 2)) mod length l)%nat.
Proof.
  intros Hi. unfold roll_half.
  set (n := length l) in *. set (k := (n - n / 2)%nat).
  assert (Hk : (k <= n)%nat) by (unfold k; lia).
  assert (Hhalf : (n / 2 <= n)%nat) by (apply Nat.Div0.div_le_upper_bound; lia).
  destruct (decide (i < n - k)%nat) as [Hlt | Hge].
  - rewrite lookup_app_l by (rewrite length_drop; fold n; lia).
    rewrite lookup_drop. f_equal.
    rewrite Nat.mod_small by lia. lia.
  - rewrite lookup_app_r by (rewrite length_drop; fold n; lia).
    rewrite length_drop. fold n.
    rewrite lookup_take_lt by lia. f_equal.
    replace (i + k)%nat with ((i + k - n) + 1 * n)%nat by lia.
    rewrite Nat.Div0.mod_add, Nat.mod_small by lia. lia.
Qed.

Lemma lookup_map {A B} (f : A -> B) (l : list A) (i : nat) :
  List.map f l !! i = f <$> l !! i.
Proof.
  revert i. induction l as [| x l IH]; intros [| i]; simpl; done.
Qed.

Lemma entry_map {A B} (f : A -> B) (m : matrix A) (i j : nat) :
  entry (List.map (List.map f) m) i j = f <$> entry m i j.
Proof.
  unfold entry. rewrite lookup_map.
  destruct (m !! i) as [row |]; simpl; [| done].
  apply lookup_map.
Qed.

Lemma entry_is_Some {A} (h w : nat) (m : matrix A) (i j : nat) :
  rectangular h w m = true -> (i < h)%nat -> (j < w)%nat ->
  exists c, entry m i j = Some c.
Proof.
  rewrite rectangular_spec. intros [Hh Hw] Hi Hj. unfold entry.
  destruct (lookup_lt_is_Some_2 m i) as [row Hrow]; [lia |].
  rewrite Hrow. apply lookup_lt_is_Some_2.
  rewrite Forall_lookup in Hw. by rewrite (Hw _ _ Hrow).
Qed.

Lemma fftshift_entry {A} (h w : nat) (m : matrix A) (i j : nat) :
  rectangular h w m = true -> (i < h)%nat -> (j < w)%nat ->
  entry (fftshift m) i j
  = entry m ((i + (h - h / 2)) mod h)%nat ((j + (w - w / 2)) mod w)%nat.
Proof.
  rewrite rectangular_spec. intros [Hh Hw] Hi Hj. unfold entry, fftshift.
  rewrite roll_half_lookup by (rewrite length_map; lia).
  rewrite length_map, Hh, lookup_map.
  destruct (m !! ((i + (h - h / 2)) mod h)%nat) as [row |] eqn:Hrow; simpl; [| done].
  rewrite Forall_lookup in Hw. pose proof (Hw _ _ Hrow) as Hlen.
  rewrite roll_half_lookup by lia. by rewrite Hlen.
Qed.

Lemma magnitude_nonneg (c : C) : (0 <= 20 * ln (Cabs c + 1))%R.
Proof.
  assert (Habs : (0 <= Cabs c)%R) by apply sqrt_pos.
  destruct (Req_dec (Cabs c) 0) as [-> | Hne].
  - rewrite Rplus_0_l, ln_1. lra.
  - assert (0 < ln (Cabs c + 1))%R; [| lra].
    rewrite <- ln_1. apply ln_increasing; lra.
Qed.

(** C4, amended. For a grayscale image [x] of [h] rows and [w] columns
    with spectrum [F], sample [(i, j)] of the magnitude image returned by
    [encrypt_fourier] is the 8-bit conversion of
    [20 * ln (|c| + 1)], the logarithm being the natural one and [c] the
    entry of [F] that [fftshift] moves to [(i, j)]; wherever that value
    is below 256 the sample is its integer part. *)
Theorem magnitude_image_formula (E : env) (x : matrix Z) (h w : nat)
    (path : string) (st : state) :
  gray_image h w x = true -> np_save E path = Ok tt ->
  exists F mag,
    fft2 (List.map (List.map (fun v => of_real (IZR v))) x) = Ok F /\
    rectangular h w F = true /\
    fst (encrypt_fourier E x path st) = Ok mag /\
    rectangular h w mag = true /\
    forall i j, (i < h)%nat -> (j < w)%nat ->
      exists c,
        entry F ((i + (h - h / 2)) mod h)%nat ((j + (w - w / 2)) mod w)%nat = Some c /\
        entry mag i j = Some (astype_uint8 (20 * ln (Cabs c + 1))) /\
        ((20 * ln (Cabs c + 1) < 256)%R ->
         entry mag i j = Some (Int_part (20 * ln (Cabs c + 1)))).
Proof.
  intros Hg Hsave. unfold gray_image in Hg.
  apply andb_true_iff in Hg as [[[Hh Hw]%andb_true_iff Hrect]%andb_true_iff Hu8].
  apply Nat.leb_le in Hh, Hw.
  destruct (encrypt_fourier_run E x path st) as (F & HF & HFshape & Hrun);
    [by apply (zero_size_rectangular h w) | done |].
  pose proof (HFshape h w Hrect) as HFr.
  exists F. eexists. split; [exact HF |]. split; [exact HFr |].
  rewrite Hrun. split; [reflexivity |]. split.
  { rewrite rectangular_map. by apply rectangular_fftshift. }
  intros i j Hi Hj.
  destruct (entry_is_Some h w F ((i + (h - h / 2)) mod h)%nat ((j + (w - w / 2)) mod w)%nat)
    as [c Hc]; [done | by apply Nat.mod_upper_bound; lia | by apply Nat.mod_upper_bound; lia |].
  exists c. split; [done |].
  assert (Hentry : entry (List.map (List.map (fun c => astype_uint8 (20 * ln (Cabs c + 1))))
                            (fftshift F)) i j
                   = Some (astype_uint8 (20 * ln (Cabs c + 1)))).
  { by rewrite entry_map, (fftshift_entry h w), Hc. }
  split; [exact Hentry |].
  intros Hlt. rewrite Hentry. f_equal.
  unfold astype_uint8. pose proof (magnitude_nonneg c) as H0.
  pose proof (trunc_between (20 * ln (Cabs c + 1)) 0 256) as Hb.
  rewrite cast_uint8_small by (apply Hb; [lia | split; lra]).
  by apply trunc_nonneg.
Qed.

Lemma magnitude_image_formula_witness :
  exists F mag,
    fft2 (List.map (List.map (fun v => of_real (IZR v))) [[9; 0]; [3; 255]]) = Ok F /\
    rectangular 2 2 F = true /\
    fst (encrypt_fourier empty_world [[9; 0]; [3; 255]] "s.npy"
           {| stdin := []; events := [] |}) = Ok mag /\
    rectangular 2 2 mag = true /\
    forall i j, (i < 2)%nat -> (j < 2)%nat ->
      exists c,
        entry F ((i + (2 - 2 / 2)) mod 2)%nat ((j + (2 - 2 / 2)) mod 2)%nat = Some c /\
        entry mag i j = Some (astype_uint8 (20 * ln (Cabs c + 1))) /\
        ((20 * ln (Cabs c + 1) < 256)%R ->
         entry mag i j = Some (Int_part (20 * ln (Cabs c + 1)))).
Proof.
  apply (magnitude_image_formula empty_world [[9; 0]; [3; 255]] 2 2 "s.npy"
           {| stdin := []; events := [] |}).
  - reflexivity.
  - reflexivity.
Defined.

(** ** The spectrum file name *)

(** [np.save] writes to the given name only when it ends in [.npy];
    [np.load] opens the name as given. *)
Example npy_name_samples :
  npy_name "spectrum.npy" = "spectrum.npy" /\ npy_name "spectrum" = "spectrum.npy".
Proof. split; reflexivity. Qed.

(** * Further properties *)

(** ** Pixel codec: keys and ciphertexts *)

Lemma nd_map_ext_on {A B} (p : A -> bool) (f g : A -> B) (a : ndarray A) :
  (forall x, p x = true -> f x = g x) ->
  nd_all p a = true -> nd_map f a = nd_map g a.
Proof.
  intros Hfg. induction a as [x | items IH] using ndarray_nested_ind; simpl.
  - intros Hx. by rewrite Hfg.
  - intros Hall. f_equal.
    induction IH as [| y l Hy _ IHl]; simpl in *; [done |].
    apply andb_true_iff in Hall as [H1 H2]. by rewrite Hy, IHl.
Qed.

Lemma lxor_255 (v : Z) : uint8 v = true -> Z.lxor v 255 = 255 - v.
Proof.
  unfold uint8. intros [H0 H1]%andb_true_iff. apply Z.leb_le in H0, H1.
  pose proof (Z.add_lxor_2land v 255) as Hadd.
  assert (Hland : Z.land v 255 = v).
  { change 255 with (Z.ones 8). rewrite Z.land_ones by lia.
    apply Z.mod_small. lia. }
  lia.
Qed.

(** With key 0 the samples are left as they are and only the rows are
    reversed; with key 255 every 8-bit sample [v] becomes [255 - v]. *)
Theorem pixel_codec_extreme_keys (s : list nat) (x : ndarray Z) :
  image_array s x = true ->
  encrypt_pixels x 0 = flipud x /\
  decrypt_pixels x 0 = flipud x /\
  encrypt_pixels x 255 = rmap (nd_map (fun v => 255 - v)) (flipud x) /\
  decrypt_pixels x 255 = rmap (nd_map (fun v => 255 - v)) (flipud x).
Proof.
  intros Hx. destruct (image_array_axis _ _ Hx) as [rows ->].
  unfold image_array in Hx. apply andb_true_iff in Hx as [_ Hu8].
  assert (H0 : forall a : ndarray Z, bitwise_xor a 0 = a).
  { intros a. unfold bitwise_xor. apply nd_map_id_on. intros v. apply Z.lxor_0_r. }
  assert (H255 : forall a : ndarray Z, nd_all uint8 a = true ->
                 bitwise_xor a 255 = nd_map (fun v => 255 - v) a).
  { intros a Ha. unfold bitwise_xor. apply (nd_map_ext_on uint8); [| done].
    intros v Hv. by apply lxor_255. }
  assert (Hflip : nd_all uint8 (Axis (rev rows)) = true).
  { simpl in *. by rewrite forallb_rev. }
  assert (He0 : encrypt_pixels (Axis rows) 0 = flipud (Axis rows)).
  { unfold encrypt_pixels. cbn [flipud rbind]. by rewrite H0. }
  assert (He255 : encrypt_pixels (Axis rows) 255
                  = rmap (nd_map (fun v => 255 - v)) (flipud (Axis rows))).
  { unfold encrypt_pixels. cbn [flipud rbind rmap]. by rewrite H255. }
  repeat split; try done.
  - rewrite <- He0. symmetry. apply flip_xor_commute.
  - rewrite <- He255. symmetry. apply flip_xor_commute.
Qed.

Lemma pixel_codec_extreme_keys_witness :
  encrypt_pixels (of_matrix [[10; 20]; [30; 40]]) 0 = flipud (of_matrix [[10; 20]; [30; 40]]) /\
  decrypt_pixels (of_matrix [[10; 20]; [30; 40]]) 0 = flipud (of_matrix [[10; 20]; [30; 40]]) /\
  encrypt_pixels (of_matrix [[10; 20]; [30; 40]]) 255
  = rmap (nd_map (fun v => 255 - v)) (flipud (of_matrix [[10; 20]; [30; 40]])) /\
  decrypt_pixels (of_matrix [[10; 20]; [30; 40]]) 255
  = rmap (nd_map (fun v => 255 - v)) (flipud (of_matrix [[10; 20]; [30; 40]])).
Proof.
  apply (pixel_codec_extreme_keys [2%nat; 2%nat] (of_matrix [[10; 20]; [30; 40]])).
  reflexivity.
Defined.

Lemma decrypt_after_encrypt (a b : ndarray Z) (k : Z) :
  encrypt_pixels a k = Ok b -> decrypt_pixels b k = Ok a.
Proof.
  destruct a as [v | rows]; intros Hb; simpl in Hb; [done |]. injection Hb as <-.
  unfold decrypt_pixels. rewrite bitwise_xor_involutive. simpl.
  by rewrite rev_involutive.
Qed.



(** ** Saving and loading *)

Lemma mode_L_cases {T} (mode : option string) (a b : T) :
  match mode with
  | Some "L" => a
  | _ => b
  end = if decide (mode = Some "L") then a else b.
Proof.
  destruct mode as [[| [[] [] [] [] [] [] [] []] [|]] |];
    case_decide; congruence.
Qed.

(** What [save_image] does, by the outcome of the library call: the
    files it writes and the line it prints. *)
Lemma save_image_outcome (E : env) (array : ndarray Z) (mode : option string)
    (path : string) (st : state) :
  exists (written : list event) (message : string),
    save_image E array mode path st
    = (Ok tt, {| stdin := stdin st;
                 events := events st ++ written ++ [Print message] |}) /\
    (written = [] \/
     written = [WriteImage path mode
                  (if decide (mode = Some "L") then array else nd_map cast_uint8 array)]) /\
    (written <> [] -> message = "✅ Image saved as: " +:+ path).
Proof.
  unfold save_image. rewrite mode_L_cases.
  destruct st as [lines ev]. case_decide as Hmode.
  - unfold bind, lift, ret, print, emit. simpl.
    destruct (cv2_imwrite E path array) as [[|] | e]; simpl.
    + exists [WriteImage path mode array], ("✅ Image saved as: " +:+ path).
      rewrite <- app_assoc. repeat split; auto.
    + exists [], ("✅ Image saved as: " +:+ path). repeat split; auto.
    + exists [], ("❌ Error saving image: " +:+ exn_text e). repeat split; auto. done.
  - unfold bind, lift, ret, print, emit. simpl.
    destruct (pil_save E path mode (nd_map cast_uint8 array)) as [[] | e]; simpl.
    + exists [WriteImage path mode (nd_map cast_uint8 array)], ("✅ Image saved as: " +:+ path).
      rewrite <- app_assoc. repeat split; auto.
    + exists [], ("❌ Error saving image: " +:+ exn_text e). repeat split; auto. done.
Qed.

(** [save_image] never raises, reads no input, prints exactly one line
    and writes at most one file, whatever the library call does. *)
Theorem save_image_never_raises (E : env) (array : ndarray Z) (mode : option string)
    (path : string) (st : state) :
  fst (save_image E array mode path st) = Ok tt /\
  stdin (snd (save_image E array mode path st)) = stdin st /\
  exists written message,
    events (snd (save_image E array mode path st))
    = events st ++ written ++ [Print message] /\
    (length written <= 1)%nat /\ forallb is_write written = true.
Proof.
  destruct (save_image_outcome E array mode path st) as (w & msg & -> & Hw & _).
  simpl. repeat split. exists w, msg. split; [done |].
  destruct Hw as [-> | ->]; simpl; split; done || lia.
Qed.

(** When [cv2.imwrite] returns [False] (it could not write the file) no
    exception is raised: a grayscale save then writes nothing and still
    prints the success message. *)
Theorem save_image_reports_unwritten_file (E : env) (array : ndarray Z)
    (path : string) (st : state) :
  cv2_imwrite E path array = Ok false ->
  save_image E array (Some "L") path st
  = (Ok tt, {| stdin := stdin st;
               events := events st ++ [Print ("✅ Image saved as: " +:+ path)] |}).
Proof.
  intros Hw. unfold save_image, bind, lift, ret, print, emit. simpl.
  rewrite Hw. reflexivity.
Qed.

(** [load_image] never raises, reads no input and writes no file: a
    failure of the library call is printed, and whenever something is
    printed both components of the result are [None]. *)
Theorem load_image_never_raises (E : env) (path : string) (as_gray : bool) (st : state) :
  exists (r : option (loaded as_gray) * option string) (printed : list event),
    load_image E path as_gray st
    = (Ok r, {| stdin := stdin st; events := events st ++ printed |}) /\
    List.filter is_write printed = [] /\
    (printed <> [] -> fst r = None /\ snd r = None).
Proof.
  destruct st as [lines ev]. destruct as_gray; simpl.
  - destruct (cv2_imread_gray E path) as [img | e].
    + exists (img, Some "L"), []. unfold ret. simpl. by rewrite app_nil_r.
    + exists (None, None), [Print ("❌ Error loading image: " +:+ exn_text e)].
      by repeat split.
  - destruct (pil_open E path) as [[array mode] | e].
    + exists (Some array, Some mode), []. unfold ret. simpl. by rewrite app_nil_r.
    + exists (None, None), [Print ("❌ Error loading image: " +:+ exn_text e)].
      by repeat split.
Qed.

(** ** The pixel method in the driver *)

Lemma bind_ext {A B} (m : io A) (k k' : A -> io B) (st : state) :
  (forall a st', k a st' = k' a st') -> bind m k st = bind m k' st.
Proof.
  intros Hk. unfold bind. destruct (m st) as [[a | e] st']; [apply Hk | done].
Qed.

(** In the pixel method the answer to "Encrypt (e) or Decrypt (d)?" has
    no effect: the two functions compute the same array, so two runs that
    differ in that line only end in the same state with the same result. *)
Theorem main_pixel_direction_irrelevant (E : env) (c op op' : string)
    (rest : list string) (ev : list event) :
  strip c = "1" ->
  main E {| stdin := c :: op :: rest; events := ev |}
  = main E {| stdin := c :: op' :: rest; events := ev |}.
Proof.
  intros Hc. unfold main.
  cbn -[strip lower String.eqb String.append newline get_int_input load_image save_image].
  rewrite Hc.
  cbn -[strip lower String.append newline get_int_input load_image save_image].
  apply bind_ext. intros path st1.
  apply bind_ext. intros key st2.
  apply bind_ext. intros output st3.
  apply bind_ext. intros [[img |] mode] st4; [| done].
  assert (Hsame : forall o : string,
            (if String.eqb (lower (strip o)) "e"
             then encrypt_pixels img key else decrypt_pixels img key)
            = encrypt_pixels img key).
  { intros o. destruct (String.eqb (lower (strip o)) "e"); [done |].
    symmetry. apply flip_xor_commute. }
  by rewrite !Hsame.
Qed.

Lemma main_pixel_direction_irrelevant_witness :
  main empty_world {| stdin := ["1"; "e"; "a.png"; "7"; "b.png"]; events := [] |}
  = main empty_world {| stdin := ["1"; "d"; "a.png"; "7"; "b.png"]; events := [] |}.
Proof.
  apply (main_pixel_direction_irrelevant empty_world "1" "e" "d" ["a.png"; "7"; "b.png"] []).
  reflexivity.
Defined.

Lemma cast_uint8_image (a : ndarray Z) :
  nd_all uint8 a = true -> nd_map cast_uint8 a = a.
Proof.
  intros Ha. rewrite (nd_map_ext_on uint8 cast_uint8 (fun v => v)); [| | done].
  - by apply nd_map_id_on.
  - intros v Hv. apply cast_uint8_small.
    unfold uint8 in Hv. apply andb_true_iff in Hv as [H0 H1].
    apply Z.leb_le in H0, H1. lia.
Qed.

(** A run of the pixel method on a readable image, with a valid key
    entered at once, returns normally after five lines of input; if it
    writes a file, the file holds [encrypt_pixels] of the image under
    the entered key with the mode of the source image, whichever
    direction was asked for, and a second application with the same key
    gives the image back. *)
Theorem main_pixel_writes_ciphertext (E : env) (s : list nat) (x : ndarray Z)
    (mode : string) (k : Z) (c op p kline out : string) (rest : list string) :
  strip c = "1" -> py_int E kline = Some k -> 0 <= k <= 255 ->
  pil_open E (strip p) = Ok (x, mode) -> image_array s x = true ->
  exists y,
    encrypt_pixels x k = Ok y /\ image_array s y = true /\
    encrypt_pixels y k = Ok x /\
    fst (main E {| stdin := c :: op :: p :: kline :: out :: rest; events := [] |}) = Ok tt /\
    stdin (snd (main E {| stdin := c :: op :: p :: kline :: out :: rest; events := [] |})) = rest /\
    (writes (snd (main E {| stdin := c :: op :: p :: kline :: out :: rest; events := [] |})) = [] \/
     writes (snd (main E {| stdin := c :: op :: p :: kline :: out :: rest; events := [] |}))
     = [WriteImage (strip out) (Some mode) y]).
Proof.
  intros Hc Hint Hk Hopen Hx.
  assert (Heq : encrypt_pixels x k = decrypt_pixels x k) by apply flip_xor_commute.
  destruct (encrypt_pixels_image s x k Hx Hk) as (y & Hy & Hyimg).
  exists y. split; [done |]. split; [done |]. split.
  { transitivity (decrypt_pixels y k); [apply flip_xor_commute |].
    by apply decrypt_after_encrypt. }
  assert (Hu8 : nd_all uint8 y = true).
  { unfold image_array in Hyimg. by apply andb_true_iff in Hyimg as [_ ?]. }
  assert (Hrun : exists ev,
            List.filter is_write ev = [] /\
            main E {| stdin := c :: op :: p :: kline :: out :: rest; events := [] |}
            = save_image E y (Some mode) (strip out) {| stdin := rest; events := ev |}).
  { eexists. split.
    2: { unfold main.
         cbn -[strip lower String.eqb String.append newline get_int_input load_image save_image].
         rewrite Hc.
         cbn -[strip lower String.append newline get_int_input load_image save_image].
         unfold bind, get_int_input. cbn [stdin events].
         rewrite (get_int_input_loop_accepted E _ 0 255 kline _ _ k Hint Hk).
         cbn -[strip lower String.append newline load_image save_image encrypt_pixels decrypt_pixels].
         unfold load_image. rewrite Hopen.
         cbn -[strip lower String.append newline save_image encrypt_pixels decrypt_pixels].
         rewrite <- Heq, Hy.
         replace (if String.eqb (lower (strip op)) "e" then Ok y else Ok y)
           with (Ok y) by (by destruct (String.eqb _ _)).
         reflexivity. }
    reflexivity. }
  destruct Hrun as (ev & Hev & ->).
  destruct (save_image_outcome E y (Some mode) (strip out) {| stdin := rest; events := ev |})
    as (w & msg & -> & Hw & _).
  cbn [fst snd stdin events]. split; [done |]. split; [done |].
  unfold writes. cbn [events]. rewrite !List.filter_app, Hev. cbn [app].
  destruct Hw as [-> | ->]; [by left |].
  right. rewrite cast_uint8_image by done. simpl. by destruct (decide _).
Qed.

Lemma main_pixel_writes_ciphertext_witness :
  exists y,
    encrypt_pixels (Axis [Axis [Axis [Item 10; Item 20; Item 30]]]) 5 = Ok y /\
    image_array [1%nat; 1%nat; 3%nat] y = true /\
    encrypt_pixels y 5 = Ok (Axis [Axis [Axis [Item 10; Item 20; Item 30]]]) /\
    fst (main readable_world
           {| stdin := "1" :: "d" :: "a.png" :: "5" :: "b.png" :: []; events := [] |}) = Ok tt /\
    stdin (snd (main readable_world
           {| stdin := "1" :: "d" :: "a.png" :: "5" :: "b.png" :: []; events := [] |})) = [] /\
    (writes (snd (main readable_world
           {| stdin := "1" :: "d" :: "a.png" :: "5" :: "b.png" :: []; events := [] |})) = [] \/
     writes (snd (main readable_world
           {| stdin := "1" :: "d" :: "a.png" :: "5" :: "b.png" :: []; events := [] |}))
     = [WriteImage (strip "b.png") (Some "RGB") y]).
Proof.
  apply (main_pixel_writes_ciphertext readable_world [1%nat; 1%nat; 3%nat]
           (Axis [Axis [Axis [Item 10; Item 20; Item 30]]])
           "RGB" 5 "1" "d" "a.png" "5" "b.png" []); try reflexivity. lia.
Defined.

(** ** The prompt loop: console and corner cases *)

(** With an empty range ([max_val < min_val]) no entry is ever accepted:
    [get_int_input] consumes all the input and ends in [EOFError]. *)
Theorem get_int_input_empty_range (E : env) (prompt : string) (min_val max_val : Z)
    (st : state) :
  max_val < min_val ->
  fst (get_int_input E prompt min_val max_val st) = Raise EOFError /\
  stdin (snd (get_int_input E prompt min_val max_val st)) = [].
Proof.
  intros Hempty. destruct st as [lines ev]. unfold get_int_input. cbn [stdin events].
  assert (Hall : forallb (rejected_entry E min_val max_val) lines = true).
  { apply forallb_forall. intros line _. unfold rejected_entry.
    destruct (py_int E line) as [v |]; [| done].
    apply negb_true_iff, andb_false_iff.
    destruct (Z.leb_spec min_val v); [right; apply Z.leb_gt; lia | by left]. }
  destruct (get_int_input_loop_exhausted E prompt min_val max_val lines ev Hall)
    as [ev' ->].
  done.
Qed.

Lemma get_int_input_empty_range_witness :
  fst (get_int_input empty_world "n: " 10 0 {| stdin := ["5"; "10"; "0"]; events := [] |})
  = Raise EOFError /\
  stdin (snd (get_int_input empty_world "n: " 10 0
                {| stdin := ["5"; "10"; "0"]; events := [] |})) = [].
Proof.
  apply (get_int_input_empty_range empty_world "n: " 10 0
           {| stdin := ["5"; "10"; "0"]; events := [] |}).
  lia.
Defined.

(** The console during the loop: the prompt before every line read, and
    after every entry turned down one line that tells an integer out of
    range from text that is no integer; nothing after the accepted
    entry. *)
Theorem get_int_input_transcript (E : env) (prompt : string) (min_val max_val : Z)
    (skipped : list string) (line : string) (rest : list string)
    (ev : list event) (val : Z) :
  forallb (rejected_entry E min_val max_val) skipped = true ->
  py_int E line = Some val -> min_val <= val <= max_val ->
  get_int_input E prompt min_val max_val
    {| stdin := skipped ++ line :: rest; events := ev |}
  = (Ok val,
     {| stdin := rest;
        events := ev
          ++ flat_map (fun s => [Print prompt;
                                 Print (rejection_notice E min_val max_val s)]) skipped
          ++ [Print prompt] |}).
Proof.
  intros Hsk Hint Hrange. unfold get_int_input. cbn [stdin events]. revert ev.
  induction skipped as [| s skipped IH]; intros ev.
  - simpl app. by rewrite (get_int_input_loop_accepted E _ _ _ _ _ _ val).
  - simpl in Hsk. apply andb_true_iff in Hsk as [Hs Hsk].
    assert (Hstep : get_int_input_loop E prompt min_val max_val
                      ((s :: skipped) ++ line :: rest) ev
                    = get_int_input_loop E prompt min_val max_val
                        (skipped ++ line :: rest)
                        ((ev ++ [Print prompt])
                         ++ [Print (rejection_notice E min_val max_val s)])).
    { unfold rejected_entry in Hs. unfold rejection_notice. simpl.
      destruct (py_int E s) as [v |]; [| done].
      apply negb_true_iff in Hs. by rewrite Hs. }
    rewrite Hstep, (IH Hsk). simpl. by rewrite <- !app_assoc.
Qed.

Lemma get_int_input_transcript_witness :
  get_int_input empty_world "key: " 0 255
    {| stdin := ["abc"; "300"] ++ "42" :: ["next"]; events := [] |}
  = (Ok 42,
     {| stdin := ["next"];
        events := []
          ++ flat_map (fun s => [Print "key: ";
                                 Print (rejection_notice empty_world 0 255 s)])
               ["abc"; "300"]
          ++ [Print "key: "] |}).
Proof.
  apply (get_int_input_transcript empty_world "key: " 0 255 ["abc"; "300"] "42"
           ["next"] [] 42).
  - reflexivity.
  - reflexivity.
  - lia.
Defined.

Example rejection_notice_samples :
  rejection_notice empty_world 0 255 "abc" = "Invalid input. Enter a valid integer." /\
  rejection_notice empty_world 0 255 "300" = "Please enter a number between 0 and 255.".
Proof. split; reflexivity. Qed.

(** ** Laplacian: what it discards *)

Lemma reflect101_range (p len : Z) :
  1 <= len -> -1 <= p <= len -> 0 <= reflect101 p len < len.
Proof.
  intros Hlen Hp. unfold reflect101.
  destruct (Z.eqb_spec len 1); [lia |].
  destruct (Z.ltb_spec p 0); [lia |].
  destruct (Z.leb_spec len p); lia.
Qed.

Lemma pixel_at_map (f : Z -> Z) (h w : nat) (img : matrix Z) (i j : Z) :
  rectangular h w img = true ->
  0 <= i < Z.of_nat h -> 0 <= j < Z.of_nat w ->
  pixel_at (List.map (List.map f) img) i j = f (pixel_at img i j).
Proof.
  rewrite rectangular_spec. intros [Hh Hw] Hi Hj. unfold pixel_at.
  assert (Hrow : nth (Z.to_nat i) (List.map (List.map f) img) []
                 = List.map f (nth (Z.to_nat i) img [])).
  { change (@nil Z) with (List.map f []) at 1. apply map_nth. }
  rewrite Hrow.
  assert (Hlen : length (nth (Z.to_nat i) img []) = w).
  { rewrite Forall_forall in Hw. apply Hw. apply list_elem_of_In, nth_In. lia. }
  rewrite (nth_indep _ 0 (f 0)) by (rewrite length_map; lia).
  apply map_nth.
Qed.

Lemma imap_map {A B D} (f : nat -> B -> D) (g : A -> B) (l : list A) :
  imap f (List.map g l) = imap (fun i x => f i (g x)) l.
Proof.
  revert f. induction l as [| x l IH]; intros f; simpl; [done |].
  by rewrite IH.
Qed.


Lemma Laplacian_shift (c : Z) (h w : nat) (img : matrix Z) :
  rectangular h w img = true ->
  Laplacian (List.map (List.map (fun v => v + c)) img) = Laplacian img.
Proof.
  intros Hrect. pose proof Hrect as [Hh Hw]%rectangular_spec.
  unfold Laplacian. rewrite length_map, imap_map.
  apply imap_ext. intros i row Hrow. cbn beta.
  rewrite length_map, imap_map.
  apply imap_ext. intros j v Hv. cbn beta.
  assert (Hi : (i < h)%nat) by (rewrite <- Hh; by apply lookup_lt_Some in Hrow).
  assert (Hrlen : length row = w).
  { rewrite Forall_lookup in Hw. by apply (Hw i). }
  assert (Hj : (j < w)%nat) by (rewrite <- Hrlen; by apply lookup_lt_Some in Hv).
  rewrite Hh, Hrlen.
  pose proof (reflect101_range (Z.of_nat i - 1) (Z.of_nat h)) as R1.
  pose proof (reflect101_range (Z.of_nat i + 1) (Z.of_nat h)) as R2.
  pose proof (reflect101_range (Z.of_nat j - 1) (Z.of_nat w)) as R3.
  pose proof (reflect101_range (Z.of_nat j + 1) (Z.of_nat w)) as R4.
  rewrite !(pixel_at_map (fun v => v + c) h w) by (done || lia).
  lia.
Qed.

(** Adding the same amount to every sample of an image does not change
    its Laplacian (the kernel sums to zero and the border is reflected),
    so [apply_laplacian] sends the two images to the same result: the
    filter cannot be inverted. *)
Theorem apply_laplacian_forgets_brightness (c : Z) (h w : nat) (img : matrix Z) :
  rectangular h w img = true ->
  apply_laplacian (List.map (List.map (fun v => v + c)) img) = apply_laplacian img.
Proof.
  intros Hrect. unfold apply_laplacian. by rewrite (Laplacian_shift c h w).
Qed.

Lemma apply_laplacian_forgets_brightness_witness :
  apply_laplacian (List.map (List.map (fun v => v + 7)) [[1; 2; 3]; [40; 50; 60]])
  = apply_laplacian [[1; 2; 3]; [40; 50; 60]].
Proof.
  apply (apply_laplacian_forgets_brightness 7 2 3 [[1; 2; 3]; [40; 50; 60]]).
  reflexivity.
Defined.



(** ** The Fourier method in the driver *)






(** The Fourier encryption branch, up to the call of [encrypt_fourier]. *)
Lemma main_fourier_encrypt_branch (E : env) (c op p s o : string) (rest : list string)
    (g : matrix Z) :
  strip c = "2" -> lower (strip op) = "e" ->
  cv2_imread_gray E (strip p) = Ok (Some g) ->
  exists ev,
    List.filter is_write ev = [] /\
    main E {| stdin := c :: op :: p :: s :: o :: rest; events := [] |}
    = bind (encrypt_fourier E g (strip s))
        (fun result => save_image E (of_matrix result) (Some "L") (strip o))
        {| stdin := rest; events := ev |}.
Proof.
  intros Hc Hop Hread. eexists. split.
  2: { unfold main.
       cbn -[strip lower String.eqb String.append newline get_int_input load_image
             save_image encrypt_fourier].
       rewrite Hc.
       cbn -[strip lower String.append newline get_int_input load_image save_image
             encrypt_fourier].
       rewrite Hop.
       cbn -[strip lower String.append newline get_int_input load_image save_image
             encrypt_fourier].
       unfold bind at 1. unfold load_image. rewrite Hread. cbn [ret].
       reflexivity. }
  reflexivity.
Qed.


(** When the spectrum file cannot be written, the exception of [np.save]
    is not caught anywhere: the run ends with it, after the image was
    read and before anything is written. *)
Theorem main_fourier_encrypt_save_failure (E : env) (h w : nat) (g : matrix Z)
    (c op p s o : string) (rest : list string) (e : exn) :
  strip c = "2" -> lower (strip op) = "e" ->
  cv2_imread_gray E (strip p) = Ok (Some g) -> gray_image h w g = true ->
  np_save E (strip s) = Raise e ->
  fst (main E {| stdin := c :: op :: p :: s :: o :: rest; events := [] |}) = Raise e /\
  writes (snd (main E {| stdin := c :: op :: p :: s :: o :: rest; events := [] |})) = [].
Proof.
  intros Hc Hop Hread Hg Hsave.
  destruct (main_fourier_encrypt_branch E c op p s o rest g Hc Hop Hread)
    as (ev & Hev & ->).
  assert (Hz : zero_size g = false).
  { unfold gray_image in Hg.
    apply andb_true_iff in Hg as [[[Hh Hw]%andb_true_iff Hrect]%andb_true_iff _].
    apply Nat.leb_le in Hh, Hw. by apply (zero_size_rectangular h w). }
  destruct (fft2_shape (List.map (List.map (fun v => of_real (IZR v))) g))
    as (F & HF & _).
  { destruct g as [| [| v row] g]; done. }
  unfold bind, encrypt_fourier, bind, lift. rewrite HF, Hsave.
  cbn [fst snd events]. split; [done |]. exact Hev.
Qed.


Lemma main_fourier_encrypt_save_failure_witness :
  fst (main read_only_world
         {| stdin := "2" :: "e" :: "a.png" :: "s.npy" :: "mag.png" :: []; events := [] |})
  = Raise (OSError "Permission denied") /\
  writes (snd (main read_only_world
         {| stdin := "2" :: "e" :: "a.png" :: "s.npy" :: "mag.png" :: []; events := [] |}))
  = [].
Proof.
  apply (main_fourier_encrypt_save_failure read_only_world 2 2 [[1; 2]; [3; 4]]
           "2" "e" "a.png" "s.npy" "mag.png" [] (OSError "Permission denied"));
    reflexivity.
Defined.

(** ** The centre of the magnitude image *)

Lemma Cmul_cis_0 (x : C) (t : R) : t = 0%R -> Cmul x (cis t) = x.
Proof.
  intros ->. destruct x as [a b]. unfold Cmul, cis. simpl.
  rewrite cos_0, sin_0. f_equal; lra.
Qed.

Lemma imap_id_on {A} (f : nat -> A -> A) (l : list A) :
  (forall i x, f i x = x) -> imap f l = l.
Proof.
  revert f. induction l as [| x l IH]; intros f Hf; simpl; [done |].
  rewrite Hf. f_equal. apply IH. intros i y. apply Hf.
Qed.

Lemma Csum_cons (x : C) (l : list C) : Csum (x :: l) = Cadd x (Csum l).
Proof. reflexivity. Qed.

Lemma Csum_reals (row : list Z) :
  Csum (List.map (fun v => of_real (IZR v)) row)
  = of_real (IZR (fold_right Z.add 0 row)).
Proof.
  induction row as [| v row IH]; [done |].
  cbn [List.map fold_right]. rewrite Csum_cons, IH.
  unfold Cadd, of_real. simpl. rewrite plus_IZR. f_equal. lra.
Qed.

Lemma Csum_row_sums (m : matrix Z) :
  Csum (List.map (fun row => of_real (IZR (fold_right Z.add 0 row))) m)
  = of_real (IZR (sum_samples m)).
Proof.
  unfold sum_samples. rewrite <- Csum_reals. by rewrite List.map_map.
Qed.

Lemma imap_as_map {A B} (f : nat -> A -> B) (g : A -> B) (l : list A) :
  (forall i x, f i x = g x) -> imap f l = List.map g l.
Proof.
  revert f. induction l as [| x l IH]; intros f Hf; simpl; [done |].
  rewrite Hf. f_equal. apply IH. intros i y. apply Hf.
Qed.

(** The zero-frequency coefficient is the sum of all entries. *)
Lemma dft2_sum_origin (sign : R) (a : matrix C) :
  zero_size a = false ->
  entry (dft2_sum sign a) 0 0 = Some (Csum (List.map Csum a)).
Proof.
  intros Hz. destruct a as [| [| c0 r0] a']; try done.
  set (a := (c0 :: r0) :: a').
  unfold entry, dft2_sum. rewrite list_lookup_imap.
  change (a !! 0%nat) with (Some (c0 :: r0)). cbn [fmap option_fmap option_map].
  rewrite list_lookup_imap.
  change ((c0 :: r0) !! 0%nat) with (Some c0). cbn [fmap option_fmap option_map].
  f_equal. f_equal. apply imap_as_map. intros m row'. f_equal.
  apply imap_id_on. intros n x. apply Cmul_cis_0.
  simpl INR. unfold Rdiv. ring.
Qed.

Lemma sum_samples_nonneg (m : matrix Z) :
  forallb (forallb uint8) m = true -> 0 <= sum_samples m.
Proof.
  unfold sum_samples. induction m as [| row m IH]; simpl; [lia |].
  intros [Hrow Hm]%andb_true_iff. specialize (IH Hm).
  assert (0 <= fold_right Z.add 0 row); [| lia].
  clear -Hrow. induction row as [| v row IH]; simpl in *; [lia |].
  apply andb_true_iff in Hrow as [Hv Hrow]. specialize (IH Hrow).
  unfold uint8 in Hv. apply andb_true_iff in Hv as [Hv _]. apply Z.leb_le in Hv. lia.
Qed.

(** The sample at the centre [(h // 2, w // 2)] of the magnitude image
    depends on the image through the sum of its samples only: it is the
    8-bit conversion of [20 * ln (sum + 1)]. *)
Theorem magnitude_centre_is_sum (E : env) (x : matrix Z) (h w : nat)
    (path : string) (st : state) :
  gray_image h w x = true -> np_save E path = Ok tt ->
  exists mag,
    fst (encrypt_fourier E x path st) = Ok mag /\
    entry mag (h / 2) (w / 2)
    = Some (astype_uint8 (20 * ln (IZR (sum_samples x) + 1))).
Proof.
  intros Hg Hsave. unfold gray_image in Hg.
  apply andb_true_iff in Hg as [[[Hh Hw]%andb_true_iff Hrect]%andb_true_iff Hu8].
  apply Nat.leb_le in Hh, Hw.
  assert (Hz : zero_size x = false) by (by apply (zero_size_rectangular h w)).
  destruct (encrypt_fourier_run E x path st Hz Hsave) as (F & HF & HFshape & ->).
  eexists. split; [reflexivity |].
  assert (Hhalf : forall n, (1 <= n)%nat ->
                  (n / 2 < n)%nat /\ ((n / 2 + (n - n / 2)) mod n = 0)%nat).
  { intros n Hn. assert (n / 2 < n)%nat by (apply Nat.div_lt; lia).
    split; [done |]. replace (n / 2 + (n - n / 2))%nat with n by lia.
    apply Nat.Div0.mod_same. }
  destruct (Hhalf h Hh) as [Hh2 Hh0]. destruct (Hhalf w Hw) as [Hw2 Hw0].
  rewrite entry_map, (fftshift_entry h w) by (done || by apply HFshape).
  rewrite Hh0, Hw0.
  unfold fft2 in HF.
  replace (zero_size (List.map (List.map (fun v => of_real (IZR v))) x)) with false in HF
    by (by destruct x as [| [| v row] x]).
  injection HF as <-.
  rewrite dft2_sum_origin by (by destruct x as [| [| v row] x]).
  cbn [fmap option_fmap option_map]. rewrite List.map_map.
  rewrite (map_ext _ (fun row => of_real (IZR (fold_right Z.add 0 row))))
    by (intros row; apply Csum_reals).
  rewrite Csum_row_sums. unfold of_real.
  rewrite Cabs_real by (apply IZR_le; by apply sum_samples_nonneg). done.
Qed.

Lemma magnitude_centre_is_sum_witness :
  exists mag,
    fst (encrypt_fourier gray_world [[1; 2]; [3; 4]] "s.npy"
           {| stdin := []; events := [] |}) = Ok mag /\
    entry mag (2 / 2) (2 / 2)
    = Some (astype_uint8 (20 * ln (IZR (sum_samples [[1; 2]; [3; 4]]) + 1))).
Proof.
  apply (magnitude_centre_is_sum gray_world [[1; 2]; [3; 4]] 2 2 "s.npy"
           {| stdin := []; events := [] |}); reflexivity.
Defined.

(** ** The other branches of the driver *)

(** The Laplacian branch never raises once its three lines are there: it
    returns normally whatever the files hold, and writes at most the
    edge image of the grayscale image it read. *)
Theorem main_laplacian_total (E : env) (c p o : string) (rest : list string) :
  strip c = "3" ->
  fst (main E {| stdin := c :: p :: o :: rest; events := [] |}) = Ok tt /\
  stdin (snd (main E {| stdin := c :: p :: o :: rest; events := [] |})) = rest /\
  (writes (snd (main E {| stdin := c :: p :: o :: rest; events := [] |})) = [] \/
   exists g,
     cv2_imread_gray E (strip p) = Ok (Some g) /\
     writes (snd (main E {| stdin := c :: p :: o :: rest; events := [] |}))
     = [WriteImage (strip o) (Some "L") (of_matrix (apply_laplacian g))]).
Proof.
  intros Hc.
  assert (Hrun : exists ev,
            List.filter is_write ev = [] /\
            main E {| stdin := c :: p :: o :: rest; events := [] |}
            = bind (load_image E (strip p) true)
                (fun loaded_image =>
                   match loaded_image with
                   | (None, _) => ret tt
                   | (Some img_array, mode) =>
                       save_image E (of_matrix (apply_laplacian img_array))
                         (Some "L") (strip o)
                   end)
                {| stdin := rest; events := ev |}).
  { eexists. split.
    2: { unfold main.
         cbn -[strip lower String.eqb String.append newline get_int_input load_image
               save_image apply_laplacian].
         rewrite Hc.
         cbn -[strip lower String.append newline get_int_input load_image save_image
               apply_laplacian].
         reflexivity. }
    reflexivity. }
  destruct Hrun as (ev & Hev & ->).
  unfold bind, load_image.
  destruct (cv2_imread_gray E (strip p)) as [[g |] | e] eqn:Hread.
  - cbn [ret].
    match goal with
    | |- context [save_image E ?a ?m ?q ?st] =>
        destruct (save_image_outcome E a m q st) as (wr & msg & -> & Hw & _)
    end.
    cbn [fst snd stdin events]. split; [done |]. split; [done |].
    unfold writes. cbn [events]. rewrite !List.filter_app, Hev.
    cbn [app List.filter is_write].
    destruct Hw as [-> | ->]; [by left |]. right. exists g. split; [done |]. simpl. done.
  - cbn. split; [done |]. split; [done |]. left. exact Hev.
  - cbn. split; [done |]. split; [done |]. left.
    unfold writes. cbn. rewrite List.filter_app, Hev. done.
Qed.

Lemma main_laplacian_total_witness :
  fst (main gray_world {| stdin := "3" :: "a.png" :: "edges.png" :: []; events := [] |}) = Ok tt /\
  stdin (snd (main gray_world {| stdin := "3" :: "a.png" :: "edges.png" :: []; events := [] |})) = [] /\
  (writes (snd (main gray_world {| stdin := "3" :: "a.png" :: "edges.png" :: []; events := [] |})) = [] \/
   exists g,
     cv2_imread_gray gray_world (strip "a.png") = Ok (Some g) /\
     writes (snd (main gray_world {| stdin := "3" :: "a.png" :: "edges.png" :: []; events := [] |}))
     = [WriteImage (strip "edges.png") (Some "L") (of_matrix (apply_laplacian g))]).
Proof.
  apply (main_laplacian_total gray_world "3" "a.png" "edges.png" []). reflexivity.
Defined.



(** ** Spectra of any rank *)

(** An array of shape [[h; w]] is the embedding of a matrix. *)
Lemma has_shape_matrix {A} (h w : nat) (a : ndarray A) :
  has_shape [h; w] a = true ->
  exists m, a = of_matrix m /\ rectangular h w m = true.
Proof.
  destruct a as [x | rows]; [done |]. cbn [has_shape].
  intros [Hlen Hrows]%andb_true_iff. apply Nat.eqb_eq in Hlen. subst h.
  induction rows as [| r rows IH].
  - by exists [].
  - cbn [forallb] in Hrows. apply andb_true_iff in Hrows as [Hr Hrows].
    destruct (IH Hrows) as (m & Hm & Hrect).
    destruct r as [x | items]; [done |]. cbn [has_shape] in Hr.
    apply andb_true_iff in Hr as [Hw Hitems]. apply Nat.eqb_eq in Hw.
    assert (Hvec : exists row, items = List.map Item row).
    { clear -Hitems. induction items as [| i items IH].
      - by exists [].
      - cbn [forallb] in Hitems. apply andb_true_iff in Hitems as [Hi Hitems].
        destruct (IH Hitems) as (row & ->).
        destruct i as [x | ?]; [| done]. by exists (x :: row). }
    destruct Hvec as (row & ->). rewrite length_map in Hw.
    exists (row :: m). split.
    + unfold of_matrix in *. simpl. injection Hm as ->. done.
    + apply rectangular_spec. apply rectangular_spec in Hrect as [Hl Hf].
      split; [simpl; by rewrite Hl |]. by constructor.
Qed.

Lemma has_shape_of_matrix {A} (h w : nat) (m : matrix A) :
  rectangular h w m = true -> has_shape [h; w] (of_matrix m) = true.
Proof.
  unfold rectangular. intros [Hh Hw]%andb_true_iff.
  cbn [has_shape of_matrix]. rewrite length_map, Hh. cbn [andb].
  clear Hh. induction m as [| row m IH]; [done |].
  cbn [forallb List.map] in *. apply andb_true_iff in Hw as [Hrow Hw].
  rewrite IH by done. rewrite andb_true_r. cbn [has_shape].
  rewrite length_map, Hrow. cbn [andb].
  clear. induction row as [| x row IH]; [done |]. simpl. exact IH.
Qed.

(** The transform of an array whose first axis holds arrays of two or
    more axes runs over those, one by one. *)
Lemma ifft2_nd_leading_axis (items : list (ndarray C)) :
  as_matrix (Axis items) = None ->
  ifft2_nd (Axis items)
  = rmap Axis (fold_right (fun x acc =>
                 rbind (ifft2_nd x) (fun y => rbind acc (fun ys => Ok (y :: ys))))
               (Ok []) items).
Proof.
  intros Hnone. cbn [ifft2_nd]. rewrite Hnone. reflexivity.
Qed.

Lemma as_matrix_deep {A} (s : list nat) (d : nat) (items : list (ndarray A)) :
  (2 <= length s)%nat -> Forall (fun k => (1 <= k)%nat) (d :: s) ->
  has_shape (d :: s) (Axis items) = true -> as_matrix (Axis items) = None.
Proof.
  intros Hlen Hpos Hshape. cbn [has_shape] in Hshape.
  apply andb_true_iff in Hshape as [Hd Hitems]. apply Nat.eqb_eq in Hd.
  apply Forall_cons in Hpos as [Hd1 Hs].
  destruct items as [| x items]; [simpl in Hd; lia |].
  cbn [forallb] in Hitems. apply andb_true_iff in Hitems as [Hx _].
  destruct s as [| k [| k' s]]; try (simpl in Hlen; lia).
  destruct x as [v | sub]; [done |]. cbn [has_shape] in Hx.
  apply andb_true_iff in Hx as [Hk Hsub]. apply Nat.eqb_eq in Hk.
  apply Forall_cons in Hs as [Hk1 _].
  destruct sub as [| y sub]; [simpl in Hk; lia |].
  cbn [forallb] in Hsub. apply andb_true_iff in Hsub as [Hy _].
  destruct y as [v | ?]; [done |].
  reflexivity.
Qed.

(** [ifft2_nd] accepts every array of two or more axes without an empty
    axis and returns an array of the same shape. *)
Lemma ifft2_nd_shape (s : list nat) (a : ndarray C) :
  (2 <= length s)%nat -> Forall (fun k => (1 <= k)%nat) s ->
  has_shape s a = true ->
  exists r, ifft2_nd a = Ok r /\ has_shape s r = true.
Proof.
  revert a. induction s as [| d s IH]; intros a Hlen Hpos Hshape; [simpl in Hlen; lia |].
  destruct (decide (length s = 1%nat)) as [H1 | Hmore].
  - destruct s as [| w [| ? ?]]; try done.
    destruct (has_shape_matrix d w a Hshape) as (m & -> & Hrect).
    apply Forall_cons in Hpos as [Hd Hw]. apply Forall_cons in Hw as [Hw _].
    destruct (ifft2_nd_of_matrix m) as (r & _ & Hr & Hshape_r).
    { by apply (zero_size_rectangular d w). }
    exists (of_matrix r). split; [done |]. apply has_shape_of_matrix. by apply Hshape_r.
  - assert (Hlen' : (2 <= length s)%nat) by (simpl in Hlen; lia).
    destruct a as [v | items]; [done |].
    rewrite ifft2_nd_leading_axis by (by apply (as_matrix_deep s d)).
    cbn [has_shape] in Hshape. apply andb_true_iff in Hshape as [Hd Hitems].
    apply Forall_cons in Hpos as [Hd1 Hs].
    assert (Hall : exists rs,
              fold_right (fun x acc =>
                 rbind (ifft2_nd x) (fun y => rbind acc (fun ys => Ok (y :: ys))))
               (Ok []) items = Ok rs /\
              length rs = length items /\ forallb (has_shape s) rs = true).
    { clear Hd. induction items as [| x items IHi].
      - by exists [].
      - cbn [forallb] in Hitems. apply andb_true_iff in Hitems as [Hx Hitems].
        destruct (IHi Hitems) as (rs & Hrs & Hl & Hf).
        destruct (IH x Hlen' Hs Hx) as (r & Hr & Hrshape).
        exists (r :: rs). cbn [fold_right]. rewrite Hr, Hrs. simpl.
        by rewrite Hl, Hrshape, Hf. }
    destruct Hall as (rs & -> & Hl & Hf).
    exists (Axis rs). split; [done |]. cbn [has_shape]. by rewrite Hl, Hd, Hf.
Qed.

(** [decrypt_fourier] checks neither rank nor type: every loaded array of
    two or more axes, none of them empty, is transformed, and the result
    has the shape of that array. *)
Theorem decrypt_fourier_any_rank (E : env) (path : string) (st : state)
    (s : list nat) (a : ndarray C) :
  np_load E path = Ok a ->
  (2 <= length s)%nat -> Forall (fun k => (1 <= k)%nat) s ->
  has_shape s a = true ->
  exists r, decrypt_fourier E path st = (Ok (Some r), st) /\ has_shape s r = true.
Proof.
  intros Hload Hlen Hpos Hshape.
  destruct (ifft2_nd_shape s a Hlen Hpos Hshape) as (r & Hr & Hrshape).
  exists (nd_map astype_uint8 (nd_map Cabs r)). split.
  - unfold decrypt_fourier. rewrite Hload. cbn [rbind]. by rewrite Hr.
  - by rewrite !has_shape_map.
Qed.

Lemma decrypt_fourier_any_rank_witness :
  exists r,
    decrypt_fourier three_axes_world "cube.npy" {| stdin := []; events := [] |}
    = (Ok (Some r), {| stdin := []; events := [] |}) /\
    has_shape [1%nat; 1%nat; 1%nat] r = true.
Proof.
  apply (decrypt_fourier_any_rank three_axes_world "cube.npy"
           {| stdin := []; events := [] |} [1%nat; 1%nat; 1%nat]
           (Axis [Axis [Axis [Item (4%R, 0%R)]]])).
  - reflexivity.
  - simpl. lia.
  - repeat constructor.
  - reflexivity.
Defined.

Lemma save_image_reports_unwritten_file_witness :
  save_image read_only_world (of_matrix [[1; 2]; [3; 4]]) (Some "L") "out.png"
    {| stdin := []; events := [] |}
  = (Ok tt, {| stdin := [];
               events := [] ++ [Print ("✅ Image saved as: " +:+ "out.png")] |}).
Proof.
  apply (save_image_reports_unwritten_file read_only_world
           (of_matrix [[1; 2]; [3; 4]]) "out.png" {| stdin := []; events := [] |}).
  reflexivity.
Defined.

(** ** Finite sums of complex numbers *)





Lemma Cmul_1_r (c : C) : Cmul c (1%R, 0%R) = c.
Proof. destruct c. unfold Cmul. simpl. f_equal; ring. Qed.




Lemma Cscale_mul (r : R) (c : C) : Cscale r c = Cmul c (r, 0%R).
Proof. destruct c. unfold Cscale, Cmul. simpl. f_equal; ring. Qed.














(** ** Roots of unity *)









(** ** Inversion of the discrete Fourier sums *)






(** ** The transforms on arrays *)













(** ** Failures and restoration in the driver *)

(** In the pixel method the image is opened only after the four answers
    were read: when it cannot be opened, the error is printed and the
    run returns normally, with nothing transformed or written. *)
Theorem main_pixel_unreadable_image (E : env) (c op p kline out : string)
    (rest : list string) (k : Z) (e : exn) :
  strip c = "1" -> py_int E kline = Some k -> 0 <= k <= 255 ->
  pil_open E (strip p) = Raise e ->
  main E {| stdin := c :: op :: p :: kline :: out :: rest; events := [] |}
  = (Ok tt,
     {| stdin := rest;
        events := [Print (newline +:+ "=== 🔐 Image Encryption Tool ===");
                   Print "1. Pixel-based Encryption/Decryption";
                   Print "2. Fourier Transform Encryption/Decryption";
                   Print "3. Laplacian Transform (edge detection only)";
                   Print "Choose method (1/2/3): ";
                   Print "Encrypt (e) or Decrypt (d)? ";
                   Print "Enter image path: ";
                   Print "Enter encryption key (0-255): ";
                   Print "Output image filename: ";
                   Print ("❌ Error loading image: " +:+ exn_text e)] |}).
Proof.
  intros Hc Hint Hk Hopen. unfold main.
  cbn -[strip lower String.eqb String.append newline get_int_input load_image save_image].
  rewrite Hc.
  cbn -[strip lower String.append newline get_int_input load_image save_image].
  unfold bind, get_int_input. cbn [stdin events].
  rewrite (get_int_input_loop_accepted E _ 0 255 kline _ _ k Hint Hk).
  cbn -[strip lower String.append newline load_image save_image encrypt_pixels decrypt_pixels].
  unfold load_image. rewrite Hopen. reflexivity.
Qed.

Lemma main_pixel_unreadable_image_witness :
  main empty_world {| stdin := "1" :: "e" :: "a.png" :: "7" :: "b.png" :: []; events := [] |}
  = (Ok tt,
     {| stdin := [];
        events := [Print (newline +:+ "=== 🔐 Image Encryption Tool ===");
                   Print "1. Pixel-based Encryption/Decryption";
                   Print "2. Fourier Transform Encryption/Decryption";
                   Print "3. Laplacian Transform (edge detection only)";
                   Print "Choose method (1/2/3): ";
                   Print "Encrypt (e) or Decrypt (d)? ";
                   Print "Enter image path: ";
                   Print "Enter encryption key (0-255): ";
                   Print "Output image filename: ";
                   Print ("❌ Error loading image: "
                          +:+ exn_text (OSError "No such file or directory"))] |}).
Proof.
  apply (main_pixel_unreadable_image empty_world "1" "e" "a.png" "7" "b.png" [] 7
           (OSError "No such file or directory")); try reflexivity. lia.
Defined.


